(** * ag-jz: the merge / registry / skill-index pipeline of [bin/index.js]

    A shallow embedding of [packages/ag-jz/bin/index.js] and the properties
    of its directory merger, registry store and skill indexer.

    Modelling conventions.
    - A JavaScript string is a sequence of UTF-16 code units; the model covers
      the code units below 256 (Rocq's [ascii]), read as Latin-1.
    - A directory is the list of its entries in the order [fs.readdirSync]
      returns them; an entry is a regular file or a directory.  Name lookup is
      exact (a case-sensitive file system).
    - The destination directory ([globalDir] / [targetDir]) and the downloaded
      kit ([tempDir]) are separate trees; destination paths are lists of names
      relative to the destination directory.
    - The registry objects [registry.kits] and [registry.files] are plain
      objects: a finite map holds their own properties, and the names every
      object inherits from [Object.prototype] are read and assigned as
      JavaScript does it.
    - [new Date().toISOString()] reads the next value of a clock stream; file
      system calls that write can be refused by the environment (permission,
      lock), as told by an oracle; [JSON.parse] of a text that the program
      did not write itself is a function of the environment.  These make up
      the environment [env]. *)

From Stdlib Require Import Ascii.
From stdpp Require Import base option list gmap strings.

(** Let [simpl] compute the concatenation of strings. *)
Arguments String.append !_ _ / : simpl nomatch.

(** ** Characters and strings *)

Definition LF : ascii := Ascii.ascii_of_nat 10.

Definition code (c : ascii) : nat := Ascii.nat_of_ascii c.

Definition between (lo hi : nat) (c : ascii) : bool :=
  (lo <=? code c) && (code c <=? hi).

(** [[0-9]], [[a-z]], [[A-Z]] *)
Definition is_digit : ascii -> bool := between 48 57.
Definition is_lower : ascii -> bool := between 97 122.
Definition is_upper : ascii -> bool := between 65 90.

(** The class [[a-zA-Z0-9]]. *)
Definition is_alnum (c : ascii) : bool := is_lower c || is_upper c || is_digit c.

(** The class [\s] (and what [String.prototype.trim] strips): TAB, LF, VT, FF,
    CR, space and the no-break space. *)
Definition is_space (c : ascii) : bool :=
  between 9 13 c || (code c =? 32) || (code c =? 160).

(** The characters [.] does not match: LF and CR. *)
Definition is_line_terminator (c : ascii) : bool :=
  (code c =? 10) || (code c =? 13).

(** [String.prototype.toLowerCase] on the code units below 256, where it
    works one code unit at a time: A-Z and the Latin-1 capitals (all of
    192..222 but the multiplication sign) have a lower-case form. *)
Definition lower_char (c : ascii) : ascii :=
  if is_upper c || (between 192 222 c && negb (code c =? 215))
  then Ascii.ascii_of_nat (code c + 32) else c.

Fixpoint smap (f : ascii -> ascii) (s : string) : string :=
  match s with
  | EmptyString => EmptyString
  | String c s' => String (f c) (smap f s')
  end.

Definition toLowerCase (s : string) : string := smap lower_char s.

(** [s.replace(/[^a-zA-Z0-9]/g, '_')] *)
Definition kitId_of (repoSource : string) : string :=
  smap (fun c => if is_alnum c then c else "_"%char) repoSource.

(** [s.startsWith(p)]: the rest of [s] after the prefix [p], if [s] starts
    with [p]. *)
Fixpoint strip_prefix (p s : string) : option string :=
  match p, s with
  | EmptyString, _ => Some s
  | String a p', String b s' => if decide (a = b) then strip_prefix p' s' else None
  | String _ _, EmptyString => None
  end.

Definition startsWith (s p : string) : bool := bool_decide (is_Some (strip_prefix p s)).

(** The leftmost occurrence of [pat] in [s]: what comes before it and what
    comes after it. *)
Fixpoint split_first (pat s : string) : option (string * string) :=
  match strip_prefix pat s with
  | Some after => Some (EmptyString, after)
  | None =>
      match s with
      | EmptyString => None
      | String c s' =>
          match split_first pat s' with
          | Some (before, after) => Some (String c before, after)
          | None => None
          end
      end
  end.

Fixpoint drop_spaces (s : string) : string :=
  match s with
  | String c s' => if is_space c then drop_spaces s' else s
  | EmptyString => EmptyString
  end.

Fixpoint take_line (s : string) : string :=
  match s with
  | String c s' => if is_line_terminator c then EmptyString else String c (take_line s')
  | EmptyString => EmptyString
  end.

Fixpoint trim_end (s : string) : string :=
  match s with
  | EmptyString => EmptyString
  | String c s' =>
      match trim_end s' with
      | EmptyString => if is_space c then EmptyString else String c EmptyString
      | t => String c t
      end
  end.

(** [s.trim()] *)
Definition trim (s : string) : string := trim_end (drop_spaces s).

Definition fm_open : string := "---" +:+ String LF "".
Definition fm_close : string := String LF "---".

(** [content.match(/^---\n([\s\S]*?)\n---/)]: the first capture group.  The
    lazy group stops at the leftmost [\n---] after the opening line. *)
Definition fmMatch (content : string) : option string :=
  match strip_prefix fm_open content with
  | Some rest =>
      match split_first fm_close rest with
      | Some (fm, _) => Some fm
      | None => None
      end
  | None => None
  end.

(** [fm.match(/key\s*(.* )/)] for a literal [key]: the first capture group.
    The match starts at the leftmost occurrence of [key]; the greedy [\s*]
    then takes all the white space that follows (line breaks too) and the
    group takes the rest of that line, so the match never has to backtrack. *)
Definition fieldMatch (key fm : string) : option string :=
  match split_first key fm with
  | Some (_, after) => Some (take_line (drop_spaces after))
  | None => None
  end.

(** [path.join(relativePath, name)] for a relative path that is empty or
    already normalised and a directory entry's name (POSIX separator). *)
Definition path_join (relativePath name : string) : string :=
  match relativePath with
  | EmptyString => name
  | _ => relativePath +:+ "/" +:+ name
  end.

(** ** Data model *)

(** One entry of [registry.kits]. [lastUpdated] is absent between the creation
    of the entry and the assignment that follows it. *)
Module Kit.
Record t := mk {
  source : string;
  installedAt : string;
  lastUpdated : option string;
  files : list string
}.
End Kit.

(** One entry of [registry.files]. *)
Module Owner.
Record t := mk { kit : string; updatedAt : string }.
End Owner.

(** The registry document. *)
Module Registry.
Record t := mk {
  kits : gmap string Kit.t;
  files : gmap string Owner.t
}.
(** [{ kits: {}, files: {} }] *)
Definition empty : t := mk ∅ ∅.
End Registry.

(** One element of the [skills] array. *)
Module Skill.
Record t := mk {
  id : string;
  path : string;
  category : string;
  name : string;
  description : string;
  risk : string;
  source : string
}.
End Skill.

(** What a regular file holds.  [RegistryJson r] is the text
    [JSON.stringify(r, null, 2)] of a registry document and [IndexJson l] the
    text [JSON.stringify(l, null, 2)] of a skills array: [JSON.parse] gives
    the document back.  [Text s] is any text that the program did not write
    itself. *)
Inductive content :=
| Text (s : string)
| RegistryJson (r : Registry.t)
| IndexJson (l : list Skill.t).

#[warnings="-register-all"]
Inductive node :=
| File (c : content)
| Dir (entries : list (string * node)).

Definition path := list string.

Definition isDirectory (n : node) : bool :=
  match n with Dir _ => true | File _ => false end.

Fixpoint find_entry (x : string) (es : list (string * node)) : option node :=
  match es with
  | [] => None
  | (y, n) :: es' => if decide (x = y) then Some n else find_entry x es'
  end.

(** Replaces the entry named [x], or adds it to the directory. *)
Fixpoint set_entry (x : string) (n : node) (es : list (string * node))
  : list (string * node) :=
  match es with
  | [] => [(x, n)]
  | (y, m) :: es' => if decide (x = y) then (x, n) :: es' else (y, m) :: set_entry x n es'
  end.

Fixpoint lookup_path (n : node) (p : path) : option node :=
  match p with
  | [] => Some n
  | x :: p' =>
      match n with
      | Dir es =>
          match find_entry x es with
          | Some m => lookup_path m p'
          | None => None
          end
      | File _ => None
      end
  end.

Definition at_path (d : option node) (p : path) : option node :=
  match d with
  | Some n => lookup_path n p
  | None => None
  end.

Inductive errno := ENOENT | ENOTDIR | EISDIR | EEXIST | EACCES.

(** [mkdir -p]: creates the directory at [p] and its missing ancestors; does
    nothing when it is there already. *)
Fixpoint mkdirp (n : option node) (p : path) {struct p} : errno + node :=
  match n with
  | None => inr (fold_right (fun x m => Dir [(x, m)]) (Dir []) p)
  | Some (File _) => inl (match p with [] => EEXIST | _ => ENOTDIR end)
  | Some (Dir es) =>
      match p with
      | [] => inr (Dir es)
      | x :: p' =>
          match mkdirp (find_entry x es) p' with
          | inr m => inr (Dir (set_entry x m es))
          | inl e => inl e
          end
      end
  end.

(** Creates or overwrites the regular file at [p]. *)
Fixpoint write_file (n : node) (p : path) (c : content) : errno + node :=
  match p with
  | [] => match n with Dir _ => inl EISDIR | File _ => inr (File c) end
  | x :: p' =>
      match n with
      | File _ => inl ENOTDIR
      | Dir es =>
          match find_entry x es with
          | Some m =>
              match write_file m p' c with
              | inr m' => inr (Dir (set_entry x m' es))
              | inl e => inl e
              end
          | None =>
              match p' with
              | [] => inr (Dir (set_entry x (File c) es))
              | _ => inl ENOENT
              end
          end
      end
  end.

(** ** The world, the environment and the effects *)

(** The file system calls that change the destination tree. *)
Inductive syscall :=
| Mkdir (p : path)
| CopyFile (p : path)
| WriteFile (p : path).

Inductive error :=
| NoAgentFolder          (* the [Error] thrown by [mergeAgentFolder] *)
| Errno (e : errno)      (* a failed [fs] call *)
| SyntaxError            (* [JSON.parse] of a text that is not JSON *)
| TypeError              (* a property read on [undefined] *)
| ReferenceError         (* a read of a variable that is not declared *)
| FetchFailed            (* the download helper failed *)
| Exit (status : nat).   (* [process.exit(status)] *)

(** What is printed ([console.log], [console.error] and the spinner lines). *)
Inductive message :=
| Header
| MissingSource
| Downloading (source : string)
| Merging (source : string)
| Synced (source : string)
| FailedSync (source : string) (e : error)
| EnforcingRules
| RulesEnforced
| GoldenRulesLogged
| GoldenRulesError (e : error)
| GeneratingIndex
| IndexGenerated
| NoSkillsFolder
| GeneratedIndex (n : nat)
| SyncComplete (localMode : bool).

Record world := mkWorld {
  disk : option node;        (* what is at the destination directory *)
  ticks : nat;               (* how many times the clock has been read *)
  calls : list syscall;      (* the successful writing calls, latest first *)
  console : list message;    (* the printed lines, latest first *)
  proto_lastUpdated : option string
                             (* [Object.prototype.lastUpdated], once the
                                program has assigned it *)
}.

(** What [JSON.parse] makes of the text of a registry file, as far as a merge
    looks at it: a registry document (the text is the JSON of one, in
    whatever layout), or a value with no [kits] to index (null, a number, a
    string, an array, an object without [kits]).  Texts that parse to
    anything else are outside the model. *)
Inductive parsed :=
| Document (r : Registry.t)
| NoKits.

Record env := mkEnv {
  clock : nat -> string;     (* the successive values of the clock *)
  denied : syscall -> bool;  (* the calls the environment refuses *)
  JSON_parse : string -> option parsed
                             (* [JSON.parse]; nothing when it throws *)
}.

Inductive outcome (A : Type) :=
| Ok (a : A)
| Throw (e : error).
Arguments Ok {A} a.
Arguments Throw {A} e.

(** Computations over a state [S] that return or throw; what was done before
    a throw stays done. *)
Definition M (S A : Type) : Type := S -> outcome A * S.

Definition ret {S A} (a : A) : M S A := fun s => (Ok a, s).
Definition throw {S A} (e : error) : M S A := fun s => (Throw e, s).
Definition bind {S A B} (m : M S A) (k : A -> M S B) : M S B :=
  fun s => match m s with
           | (Ok a, s') => k a s'
           | (Throw e, s') => (Throw e, s')
           end.
(** [try { body } catch (err) { }] *)
Definition try_ignore {S} (body : M S unit) : M S unit :=
  fun s => match body s with
           | (Ok _, s') => (Ok tt, s')
           | (Throw _, s') => (Ok tt, s')
           end.
(** [try { body } catch (err) { handler(err) }] *)
Definition try_catch {S A} (body : M S A) (handler : error -> M S A) : M S A :=
  fun s => match body s with
           | (Ok a, s') => (Ok a, s')
           | (Throw e, s') => handler e s'
           end.
Definition when {S} (b : bool) (m : M S unit) : M S unit :=
  if b then m else ret tt.

Notation "'do' x <- m ; k" := (bind m (fun x => k))
  (at level 10, x name, m at level 100, k at level 200, only parsing).
Notation "'run' m ; k" := (bind m (fun _ => k))
  (at level 10, m at level 100, k at level 200, only parsing).

Definition print (msg : message) : M world unit :=
  fun w => (Ok tt, mkWorld (disk w) (ticks w) (calls w) (msg :: console w)
                           (proto_lastUpdated w)).

(** [log(msg, quiet)] *)
Definition log (msg : message) (quiet : bool) : M world unit :=
  when (negb quiet) (print msg).

(** [new Date().toISOString()] (and [Date.now()]) *)
Definition now (E : env) : M world string :=
  fun w => (Ok (clock E (ticks w)),
            mkWorld (disk w) (S (ticks w)) (calls w) (console w)
                    (proto_lastUpdated w)).

Definition existsSync (p : path) : M world bool :=
  fun w => (Ok (bool_decide (is_Some (at_path (disk w) p))), w).

Definition commit (d : node) (c : syscall) (w : world) : world :=
  mkWorld (Some d) (ticks w) (c :: calls w) (console w) (proto_lastUpdated w).

(** [fs.mkdirSync(p, { recursive: true })] *)
Definition mkdirSync (E : env) (p : path) : M world unit :=
  fun w =>
    if denied E (Mkdir p) then (Throw (Errno EACCES), w)
    else match mkdirp (disk w) p with
         | inr d => (Ok tt, commit d (Mkdir p) w)
         | inl e => (Throw (Errno e), w)
         end.

Definition put_file (E : env) (call : syscall) (c : content) (p : path)
  : M world unit :=
  fun w =>
    if denied E call then (Throw (Errno EACCES), w)
    else match disk w with
         | None => (Throw (Errno ENOENT), w)
         | Some root =>
             match write_file root p c with
             | inr d => (Ok tt, commit d call w)
             | inl e => (Throw (Errno e), w)
             end
         end.

(** [fs.copyFileSync(src, dest)], for a source file that holds [c]. *)
Definition copyFileSync (E : env) (c : content) (dest : path) : M world unit :=
  put_file E (CopyFile dest) c dest.

(** [fs.writeFileSync(p, text)] *)
Definition writeFileSync (E : env) (p : path) (c : content) : M world unit :=
  put_file E (WriteFile p) c p.

(** [fs.readFileSync(p, 'utf8')] *)
Definition readFileSync (p : path) : M world content :=
  fun w =>
    match at_path (disk w) p with
    | Some (File c) => (Ok c, w)
    | Some (Dir _) => (Throw (Errno EISDIR), w)
    | None => (Throw (Errno ENOENT), w)
    end.

(** ** Constants *)

Definition AGENT_FOLDER : string := ".agent".
Definition REGISTRY_FILE : string := ".sync-registry.json".

(** ** Registry store *)

Definition loadRegistry (E : env) : M world parsed :=
  do ex <- existsSync [REGISTRY_FILE];
  if negb ex then ret (Document Registry.empty)
  else
    do c <- readFileSync [REGISTRY_FILE];
    match c with
    | RegistryJson r => ret (Document r)
    | IndexJson _ => ret NoKits
    | Text s =>
        match JSON_parse E s with
        | Some v => ret v
        | None => throw SyntaxError
        end
    end.

Definition saveRegistry (E : env) (registry : Registry.t) : M world unit :=
  writeFileSync E [REGISTRY_FILE] (RegistryJson registry).

(** ** Directory merger *)

Definition includes (l : list string) (x : string) : bool := bool_decide (x ∈ l).

Definition commonFolders : list string :=
  ["skills"; "workflows"; "rules"; "scripts"; "docs"; "assets"].

(** The list [exclude] of the root sync. *)
Definition exclude : list string :=
  [".git"; ".github"; "node_modules"; "package.json";
   "package-lock.json"; ".gitignore"; "README.md"; "LICENSE";
   "packages"; "assets"; "mcp_config.json"; "skills_index.json";
   ".sync-registry.json"; "SECURITY.md"; "release_notes.md";
   "CONTRIBUTING.md"; "CHANGELOG.md"; "CATALOG.md"].

(** The two lists of the global exclusions. *)
Definition excludedFolders : list string := ["docs"; "bin"; "lib"; "packages"].
Definition excludedDocs : list string :=
  ["SECURITY.md"; "release_notes.md"; "CONTRIBUTING.md"; "CHANGELOG.md"; "CATALOG.md"].

(** The three [continue] tests at the head of the loop body. *)
Definition skipped (isRootSync : bool) (relativePath name : string) : bool :=
  (isRootSync && bool_decide (relativePath = "") && includes exclude name)
  || includes excludedFolders name
  || includes excludedDocs name.

(** The state of a merge: the registry object in memory and the world. *)
Record mstate := mkM { registry : Registry.t; wld : world }.

Definition liftW {A} (m : M world A) : M mstate A :=
  fun s => match m (wld s) with (o, w') => (o, mkM (registry s) w') end.

Definition get_registry : M mstate Registry.t := fun s => (Ok (registry s), s).
Definition set_registry (r : Registry.t) : M mstate unit :=
  fun s => (Ok tt, mkM r (wld s)).

(** The names that every plain object inherits from [Object.prototype]. *)
Definition object_prototype : list string :=
  ["__defineGetter__"; "__defineSetter__"; "__lookupGetter__";
   "__lookupSetter__"; "__proto__"; "constructor"; "hasOwnProperty";
   "isPrototypeOf"; "propertyIsEnumerable"; "toLocaleString"; "toString";
   "valueOf"].

(** Whether [obj[k]] is truthy for a plain object [obj] that has no property
    [k] of its own: [k] names a member of [Object.prototype], or the
    [lastUpdated] that the program has left there. *)
Definition inherits (w : world) (k : string) : bool :=
  includes object_prototype k
  || (bool_decide (k = "lastUpdated")
      && match proto_lastUpdated w with
         | Some t => negb (bool_decide (t = ""))
         | None => false
         end).

Definition inherited (k : string) : M world bool :=
  fun w => (Ok (inherits w k), w).

(** [Object.prototype.lastUpdated = t] *)
Definition pollute (t : string) : M world unit :=
  fun w => (Ok tt, mkWorld (disk w) (ticks w) (calls w) (console w) (Some t)).

(** [registry.files[relPath] = { kit: kitId, updatedAt: t }].  Every name
    but [__proto__] becomes or stays a property of [registry.files]; an
    assignment to [__proto__] goes to the setter of [Object.prototype] and
    replaces the prototype of [registry.files], unless the object has a
    property of that name already (as [JSON.parse] makes them). *)
Definition set_owner (relPath kitId t : string) (r : Registry.t) : Registry.t :=
  if bool_decide (relPath = "__proto__")
     && negb (bool_decide (is_Some (Registry.files r !! relPath)))
  then r
  else Registry.mk (Registry.kits r)
                   (<[relPath := Owner.mk kitId t]> (Registry.files r)).

(** [registry.kits[kitId].files.push(relPath)] *)
Definition push_file (kitId relPath : string) (k : Kit.t) (r : Registry.t) : Registry.t :=
  Registry.mk
    (<[kitId := Kit.mk (Kit.source k) (Kit.installedAt k) (Kit.lastUpdated k)
                       (Kit.files k ++ [relPath])]> (Registry.kits r))
    (Registry.files r).

(** The statements of the [try] block that follow the copy.  Where
    [registry.kits] has no entry [kitId] of its own, [registry.kits[kitId]]
    is undefined or something inherited, and has no [files]: the call of
    [includes] raises. *)
Definition track (E : env) (kitId relPath : string) : M mstate unit :=
  do t <- liftW (now E);
  do r0 <- get_registry;
  run set_registry (set_owner relPath kitId t r0);
  do r <- get_registry;
  match Registry.kits r !! kitId with
  | Some k =>
      if includes (Kit.files k) relPath then ret tt
      else set_registry (push_file kitId relPath k r)
  | None => throw TypeError
  end.

Fixpoint copyRecursive (E : env) (isRootSync : bool) (kitId : string)
  (src : node) (dest : path) (relativePath : string) {struct src} : M mstate unit :=
  match src with
  | File _ => throw (Errno ENOTDIR)
  | Dir entries =>
      (fix loop (es : list (string * node)) : M mstate unit :=
         match es with
         | [] => ret tt
         | (name, entry) :: rest =>
             if skipped isRootSync relativePath name then loop rest
             else
               let destPath := dest ++ [name] in
               let relPath := path_join relativePath name in
               run match entry with
                   | Dir _ =>
                       do ex <- liftW (existsSync destPath);
                       run when (negb ex) (liftW (mkdirSync E destPath));
                       copyRecursive E isRootSync kitId entry destPath relPath
                   | File c =>
                       try_ignore
                         (run liftW (copyFileSync E c destPath);
                          track E kitId relPath)
                   end;
               loop rest
         end) entries
  end.

(** The new entry of [registry.kits]. *)
Definition new_kit (repoSource t : string) : Kit.t := Kit.mk repoSource t None [].

Definition touch (t : string) (k : Kit.t) : Kit.t :=
  Kit.mk (Kit.source k) (Kit.installedAt k) (Some t) (Kit.files k).

(** [registry.kits[kitId].lastUpdated = t].  Without an entry of its own,
    the assignment goes to what [registry.kits] inherits under that name:
    [Object.prototype] itself for [__proto__], and a function or a string
    otherwise, where it leaves no trace. *)
Definition set_lastUpdated (kitId t : string) (r : Registry.t) : M world Registry.t :=
  match Registry.kits r !! kitId with
  | Some _ =>
      ret (Registry.mk (alter (touch t) kitId (Registry.kits r)) (Registry.files r))
  | None =>
      do truthy <- inherited kitId;
      if negb truthy then throw TypeError
      else
        run when (bool_decide (kitId = "__proto__")) (pollute t);
        ret r
  end.

Definition mergeAgentFolder (E : env) (tempDir : node) (repoSource : string)
  : M world unit :=
  do found <-
    match lookup_path tempDir [AGENT_FOLDER] with
    | Some sourceAgent => ret (sourceAgent, false)
    | None =>
        let hasCommonFolders :=
          existsb (fun folder => bool_decide (is_Some (lookup_path tempDir [folder])))
                  commonFolders in
        if hasCommonFolders then ret (tempDir, true) else throw NoAgentFolder
    end;
  let sourceAgent := fst found in
  let isRootSync := snd found in
  do ex <- existsSync [];
  run when (negb ex) (mkdirSync E []);
  do loaded <- loadRegistry E;
  let kitId := kitId_of repoSource in
  do registry0 <-
    match loaded with
    | Document r => ret r
    | NoKits => throw TypeError
    end;
  do registry1 <-
    match Registry.kits registry0 !! kitId with
    | Some _ => ret registry0
    | None =>
        do truthy <- inherited kitId;
        if truthy then ret registry0
        else
          do t <- now E;
          ret (Registry.mk (<[kitId := new_kit repoSource t]> (Registry.kits registry0))
                           (Registry.files registry0))
    end;
  do t <- now E;
  do registry2 <- set_lastUpdated kitId t registry1;
  fun w =>
    match copyRecursive E isRootSync kitId sourceAgent [] "" (mkM registry2 w) with
    | (Ok _, s) => saveRegistry E (registry s) (wld s)
    | (Throw e, s) => (Throw e, wld s)
    end.

(** ** Skill indexer *)

(** The state of a scan: the array [skills], and the property of the global
    object that line 200 assigns ([const] and the name that follows it are
    not separated, so that the line is no declaration but an assignment to
    the undeclared [const技能Path]). *)
Record scan := mkScan { skills : list Skill.t; const技能Path : option string }.

Definition assign_const技能Path (v : string) : M scan unit :=
  fun s => (Ok tt, mkScan (skills s) (Some v)).

(** [content.match(/^---\n.../)] on what was read from the marker file; the
    JSON texts start with a brace or a bracket and do not match. *)
Definition frontmatter (c : content) : option string :=
  match c with
  | Text s => fmMatch s
  | RegistryJson _ | IndexJson _ => None
  end.

(** The values of [name] and [description] after lines 184 to 194. *)
Definition declared_name (folderName : string) (c : content) : string :=
  match frontmatter c with
  | Some fm =>
      match fieldMatch "name:" fm with
      | Some v => trim v
      | None => folderName
      end
  | None => folderName
  end.

Definition declared_description (c : content) : string :=
  match frontmatter c with
  | Some fm =>
      match fieldMatch "description:" fm with
      | Some v => trim v
      | None => ""
      end
  | None => ""
  end.

Definition hasSkillMd (entries : list (string * node)) : bool :=
  existsb (fun e => bool_decide (toLowerCase (fst e) = "skill.md")) entries.

(** [processDir(currentPath, parentCategory)] where [cur] is what is at
    [currentPath] and [folderName] is [path.basename(currentPath)].  In a
    skill folder the entry is never pushed: its [path] is read from
    [技能Path], which nothing declares, and the read raises. *)
Fixpoint processDir (cur : node) (folderName parentCategory : string) {struct cur}
  : M scan unit :=
  match cur with
  | File _ => throw (Errno ENOTDIR)
  | Dir entries =>
      if hasSkillMd entries then
        do content <-
          match find_entry "SKILL.md" entries with
          | Some (File c) => ret c
          | Some (Dir _) => throw (Errno EISDIR)
          | None => throw (Errno ENOENT)
          end;
        let name := declared_name folderName content in
        let description := declared_description content in
        run assign_const技能Path
              (match parentCategory with
               | EmptyString => ".agent/skills/" +:+ folderName
               | _ => ".agent/skills/" +:+ parentCategory +:+ "/" +:+ folderName
               end);
        throw ReferenceError
      else
        match parentCategory with
        | EmptyString =>
            (fix loop (es : list (string * node)) : M scan unit :=
               match es with
               | [] => ret tt
               | (name, entry) :: rest =>
                   run when (isDirectory entry && negb (startsWith name "."))
                            (processDir entry name name);
                   loop rest
               end) entries
        | _ => ret tt
        end
  end.

Definition INDEX_FILE : string := "skills_index.json".

Definition generateSkillsIndex (E : env) (quiet : bool) : M world unit :=
  do ex <- existsSync ["skills"];
  if negb ex then log NoSkillsFolder quiet
  else
    do skills <-
      (fun w =>
         match at_path (disk w) ["skills"] with
         | Some skillsDir =>
             match processDir skillsDir "skills" "" (mkScan [] None) with
             | (Ok _, s) => (Ok (skills s), w)
             | (Throw e, _) => (Throw e, w)
             end
         | None => (Throw (Errno ENOENT), w)
         end);
    run writeFileSync E [INDEX_FILE] (IndexJson skills);
    log (GeneratedIndex (length skills)) quiet.

(** ** Rule enforcer *)

(** [asset] is what the package's [assets/GEMINI.md] holds, if it exists. *)
Definition enforceGoldenRules (E : env) (asset : option content) (quiet : bool)
  : M world unit :=
  try_catch
    (do ex <- existsSync ["rules"];
     run when (negb ex) (mkdirSync E ["rules"]);
     match asset with
     | Some c =>
         run copyFileSync E c ["rules"; "GEMINI.md"];
         log GoldenRulesLogged quiet
     | None => ret tt
     end)
    (fun e => log (GoldenRulesError e) quiet).

(** ** The sync command *)

Definition defaultKits : list string :=
  ["github:anthonylee991/gemini-superpowers";
   "github:sickn33/antigravity-awesome-skills";
   "github:Academico-JZ/ag-jz-personal-kit"].

(** The loop over [kitsToSync]; [giget] is the download helper: the tree it
    leaves in the temporary directory, or nothing when it fails. *)
Fixpoint syncKits (E : env) (giget : string -> option node)
  (kitsToSync : list string) : M world unit :=
  match kitsToSync with
  | [] => ret tt
  | source :: rest =>
      run print (Downloading source);
      run try_catch
            (do _stamp <- now E;
             do tmpDir <- match giget source with
                          | Some d => ret d
                          | None => throw FetchFailed
                          end;
             run print (Merging source);
             run mergeAgentFolder E tmpDir source;
             print (Synced source))
            (fun e => print (FailedSync source e));
      syncKits E giget rest
  end.

Definition syncCommand (E : env) (giget : string -> option node)
  (asset : option content) (repoSource : option string) (all localMode : bool)
  : M world unit :=
  run print Header;
  do kitsToSync <-
    match repoSource with
    | Some (String c s) => ret [String c s]
    | _ =>
        if all then ret defaultKits
        else (run print MissingSource; throw (Exit 1))
    end;
  run syncKits E giget kitsToSync;
  run print EnforcingRules;
  run enforceGoldenRules E asset true;
  run print RulesEnforced;
  run print GeneratingIndex;
  run generateSkillsIndex E true;
  run print IndexGenerated;
  print (SyncComplete localMode).

(** ** The loops as functions of their own *)

(** The body of the [for] loop of [copyRecursive] over the entries that are
    left. *)
Fixpoint copyEntries (E : env) (isRootSync : bool) (kitId : string)
  (es : list (string * node)) (dest : path) (relativePath : string)
  : M mstate unit :=
  match es with
  | [] => ret tt
  | (name, entry) :: rest =>
      if skipped isRootSync relativePath name
      then copyEntries E isRootSync kitId rest dest relativePath
      else
        let destPath := dest ++ [name] in
        let relPath := path_join relativePath name in
        run match entry with
            | Dir _ =>
                do ex <- liftW (existsSync destPath);
                run when (negb ex) (liftW (mkdirSync E destPath));
                copyRecursive E isRootSync kitId entry destPath relPath
            | File c =>
                try_ignore
                  (run liftW (copyFileSync E c destPath);
                   track E kitId relPath)
            end;
        copyEntries E isRootSync kitId rest dest relativePath
  end.

(** The [for] loop of [processDir] over the entries that are left. *)
Fixpoint processEntries (es : list (string * node)) : M scan unit :=
  match es with
  | [] => ret tt
  | (name, entry) :: rest =>
      run when (isDirectory entry && negb (startsWith name "."))
               (processDir entry name name);
      processEntries rest
  end.

(** The registry that [track] leaves when it is run at time [t], whether it
    returns or raises. *)
Definition tracked (kitId relPath t : string) (r : Registry.t) : Registry.t :=
  let r1 := set_owner relPath kitId t r in
  match Registry.kits r1 !! kitId with
  | Some k =>
      if includes (Kit.files k) relPath then r1 else push_file kitId relPath k r1
  | None => r1
  end.

(** The next reading of the clock. *)
Definition tick (w : world) : world :=
  mkWorld (disk w) (S (ticks w)) (calls w) (console w) (proto_lastUpdated w).

(** The relative path that [copyRecursive] holds when it is at [p]. *)
Definition rel_of (p : path) : string := fold_left path_join p "".

(** The relative paths of the copies in a list of calls. *)
Definition copied_paths (cs : list syscall) : list string :=
  omap (fun c => match c with CopyFile p => Some (rel_of p) | _ => None end) cs.

(** The copy of [P] succeeded between [w] and [w']. *)
Definition copied_by (w w' : world) (P : string) : Prop :=
  exists new, calls w' = new ++ calls w /\ P ∈ copied_paths new.

(** The registry that [loadRegistry] finds in environment [E]. *)
Definition loads (E : env) (w : world) (r : Registry.t) : Prop :=
  fst (loadRegistry E w) = Ok (Document r).

(** The registry that [loadRegistry] finds whatever the environment: the one
    that was saved to the registry file, or the empty one when there is no
    such file. *)
Definition stored (w : world) (r : Registry.t) : Prop :=
  forall E, loads E w r.


(** ** Vocabulary of the statements *)

(** The marker file starts with a block between two triple-dash lines. *)
Definition has_block (s : string) : Prop :=
  exists fm rest, s = fm_open +:+ fm +:+ fm_close +:+ rest.

Fixpoint sall (f : ascii -> bool) (s : string) : bool :=
  match s with
  | EmptyString => true
  | String c s' => f c && sall f s'
  end.

(** Spaces and tabs and the like: white space that does not end a line. *)
Definition is_blank (c : ascii) : bool := is_space c && negb (is_line_terminator c).
Definition blanks (s : string) : Prop := sall is_blank s = true.
Definition lacks (c : ascii) (s : string) : Prop :=
  sall (fun x => bool_decide (x <> c)) s = true.

(** A value as the claim writes it: not empty, on one line, nothing to trim. *)
Definition plain_value (v : string) : Prop :=
  v <> "" /\ trim v = v /\ take_line v = v.

(** The two lines of the claim, with blanks allowed around the values. *)
Definition name_line (pad1 v pad2 : string) : string :=
  "name:" +:+ pad1 +:+ v +:+ pad2.
Definition description_line (pad1 v pad2 : string) : string :=
  "description:" +:+ pad1 +:+ v +:+ pad2.

(** A path that [registry.files] takes as a property of its own: every one
    but [__proto__], and that one too where it is a property already. *)
Definition takes (r : Registry.t) (P : string) : Prop :=
  P <> "__proto__" \/ is_Some (Registry.files r !! P).

(** What the copying phase of a merge for [kitId] may have done between two
    states, [new] being the calls it made: the kit's entry, if there is one,
    is kept but for its list of files, which grows by the paths copied; every
    path copied that the ownership map takes is owned by the kit with a time
    read meanwhile; all else is as before. *)
Definition advances (E : env) (kitId : string) (s s' : mstate) (new : list syscall)
  : Prop :=
  calls (wld s') = new ++ calls (wld s)
  /\ Forall (fun c => forall p, c <> WriteFile p) new
  /\ ticks (wld s) <= ticks (wld s')
  /\ console (wld s') = console (wld s)
  /\ proto_lastUpdated (wld s') = proto_lastUpdated (wld s)
  /\ (forall k, k <> kitId ->
        Registry.kits (registry s') !! k = Registry.kits (registry s) !! k)
  /\ match Registry.kits (registry s) !! kitId with
     | Some K =>
         exists extra,
           Registry.kits (registry s') !! kitId
           = Some (Kit.mk (Kit.source K) (Kit.installedAt K) (Kit.lastUpdated K)
                          (Kit.files K ++ extra))
           /\ (NoDup (Kit.files K) -> NoDup (Kit.files K ++ extra))
           /\ (forall P, P ∈ Kit.files K ++ extra
                         <-> P ∈ Kit.files K \/ P ∈ copied_paths new)
     | None => Registry.kits (registry s') !! kitId = None
     end
  /\ (forall P, P ∈ copied_paths new -> takes (registry s) P ->
        exists i, ticks (wld s) <= i < ticks (wld s')
                  /\ Registry.files (registry s') !! P
                     = Some (Owner.mk kitId (clock E i)))
  /\ (forall P, P ∉ copied_paths new \/ ~ takes (registry s) P ->
        Registry.files (registry s') !! P = Registry.files (registry s) !! P).

(** The files listed for a kit (none when the kit has no entry). *)
Definition kit_files (r : Registry.t) (k : string) : list string :=
  match Registry.kits r !! k with
  | Some K => Kit.files K
  | None => []
  end.

(** A merge for [k] works on an entry of [registry.kits]: the one that is
    there, or the one it creates because [registry.kits[k]] is not truthy. *)
Definition enters (w : world) (r : Registry.t) (k : string) : Prop :=
  is_Some (Registry.kits r !! k) \/ inherits w k = false.

(** What lines 80 to 88 make of the registry [r0], from world [w1]: the
    registry [r2] and the world [w3]. *)
Definition entered (E : env) (repoSource : string) (r0 : Registry.t) (w1 : world)
  (r2 : Registry.t) (w3 : world) : Prop :=
  let kitId := kitId_of repoSource in
  Registry.files r2 = Registry.files r0
  /\ (forall k, k <> kitId -> Registry.kits r2 !! k = Registry.kits r0 !! k)
  /\ disk w3 = disk w1 /\ calls w3 = calls w1 /\ console w3 = console w1
  /\ ticks w1 < ticks w3
  /\ proto_lastUpdated w3
     = (if bool_decide (kitId = "__proto__" /\ Registry.kits r0 !! kitId = None)
        then Some (clock E (ticks w1))
        else proto_lastUpdated w1)
  /\ (~ enters w1 r0 kitId -> Registry.kits r2 !! kitId = None)
  /\ (enters w1 r0 kitId ->
      exists K2,
        Registry.kits r2 !! kitId = Some K2
        /\ Kit.files K2 = kit_files r0 kitId
        /\ match Registry.kits r0 !! kitId with
           | Some K => Kit.source K2 = Kit.source K
                       /\ Kit.installedAt K2 = Kit.installedAt K
                       /\ Kit.lastUpdated K2 = Some (clock E (ticks w1))
                       /\ ticks w3 = S (ticks w1)
           | None => Kit.source K2 = repoSource
                     /\ Kit.installedAt K2 = clock E (ticks w1)
                     /\ Kit.lastUpdated K2 = Some (clock E (S (ticks w1)))
                     /\ ticks w3 = S (S (ticks w1))
           end).

(** What a merge that returns has done: [r0] is the registry it loaded and
    [r'] the one it saved. *)
Record merged (E : env) (repoSource : string) (w w' : world) (r0 r' : Registry.t)
  : Prop := {
  merged_loaded : loads E w r0;
  merged_saved :
    at_path (disk w') [REGISTRY_FILE] = Some (File (RegistryJson r'));
  merged_calls :
    exists new, calls w' = WriteFile [REGISTRY_FILE] :: new ++ calls w
                /\ Forall (fun c => forall p, c <> WriteFile p) new;
  merged_ticks : ticks w < ticks w';
  merged_console : console w' = console w;
  merged_others :
    forall k, k <> kitId_of repoSource ->
      Registry.kits r' !! k = Registry.kits r0 !! k;
  merged_kit :
    enters w r0 (kitId_of repoSource) ->
    exists K',
      Registry.kits r' !! kitId_of repoSource = Some K'
      /\ match Registry.kits r0 !! kitId_of repoSource with
         | Some K =>
             Kit.source K' = Kit.source K
             /\ Kit.installedAt K' = Kit.installedAt K
             /\ Kit.lastUpdated K' = Some (clock E (ticks w))
         | None =>
             Kit.source K' = repoSource
             /\ Kit.installedAt K' = clock E (ticks w)
             /\ Kit.lastUpdated K' = Some (clock E (S (ticks w)))
         end
      /\ (exists extra, Kit.files K' = kit_files r0 (kitId_of repoSource) ++ extra)
      /\ (NoDup (kit_files r0 (kitId_of repoSource)) -> NoDup (Kit.files K'))
      /\ (forall P, P ∈ Kit.files K'
                    <-> P ∈ kit_files r0 (kitId_of repoSource) \/ copied_by w w' P);
  merged_no_kit :
    ~ enters w r0 (kitId_of repoSource) ->
    Registry.kits r' !! kitId_of repoSource = None;
  merged_proto :
    proto_lastUpdated w'
    = if bool_decide (kitId_of repoSource = "__proto__"
                      /\ Registry.kits r0 !! kitId_of repoSource = None)
      then Some (clock E (ticks w))
      else proto_lastUpdated w;
  merged_owner :
    forall P, copied_by w w' P -> takes r0 P ->
      exists i, ticks w <= i < ticks w'
                /\ Registry.files r' !! P
                   = Some (Owner.mk (kitId_of repoSource) (clock E i));
  merged_kept :
    forall P, ~ copied_by w w' P \/ ~ takes r0 P ->
      Registry.files r' !! P = Registry.files r0 !! P
}.

(** The registry document that the registry file holds. *)
Definition saved_registry (w : world) : Registry.t :=
  match at_path (disk w) [REGISTRY_FILE] with
  | Some (File (RegistryJson r)) => r
  | _ => Registry.empty
  end.

(** No path is listed twice for any kit. *)
Definition distinct_files (r : Registry.t) : Prop :=
  forall k, NoDup (kit_files r k).

(** Merges made one after the other, each with its own environment, kit
    and source; all of them return. *)
Fixpoint merges (runs : list (env * node * string)) : M world unit :=
  match runs with
  | [] => ret tt
  | (E, tempDir, repoSource) :: rest =>
      run mergeAgentFolder E tempDir repoSource;
      merges rest
  end.

(** Two source strings that differ at most in characters that are not
    alphanumeric. *)
Fixpoint differ_only_nonalnum (s1 s2 : string) : Prop :=
  match s1, s2 with
  | EmptyString, EmptyString => True
  | String a s1', String b s2' =>
      (a = b \/ (is_alnum a = false /\ is_alnum b = false))
      /\ differ_only_nonalnum s1' s2'
  | _, _ => False
  end.

(** The calls of [saveRegistry] that went through, among some calls (nothing
    else calls [fs.writeFileSync] on the registry file), and the sources
    reported as synced among the printed lines. *)
Definition is_save (c : syscall) : bool :=
  match c with
  | WriteFile p => bool_decide (p = [REGISTRY_FILE])
  | _ => false
  end.

Fixpoint saves (cs : list syscall) : nat :=
  match cs with
  | [] => 0
  | c :: cs' => (if is_save c then 1 else 0) + saves cs'
  end.

Fixpoint synced (out : list message) : nat :=
  match out with
  | [] => 0
  | Synced _ :: out' => S (synced out')
  | _ :: out' => synced out'
  end.

(** The copying of a tree keeps to [advances], wherever it is copied to. *)
Definition copy_advances (E : env) (isRootSync : bool) (kitId : string) (src : node)
  : Prop :=
  forall dest s o s',
    copyRecursive E isRootSync kitId src dest (rel_of dest) s = (o, s') ->
    exists new, advances E kitId s s' new.

(** Induction over trees, with the hypothesis for every entry of a
    directory. *)
Section NodeInduction.
Variable P : node -> Prop.
Hypothesis P_file : forall c, P (File c).
Hypothesis P_dir : forall es, Forall (fun e => P (snd e)) es -> P (Dir es).

Fixpoint node_induction (n : node) : P n :=
  match n with
  | File c => P_file c
  | Dir es =>
      P_dir es
        ((fix go (l : list (string * node)) : Forall (fun e => P (snd e)) l :=
            match l with
            | [] => List.Forall_nil _
            | e :: l' => List.Forall_cons _ e l' (node_induction (snd e)) (go l')
            end) es)
  end.
End NodeInduction.

(** The path a call writes to. *)
Definition call_path (c : syscall) : path :=
  match c with
  | Mkdir p | CopyFile p | WriteFile p => p
  end.

(** A name that the global exclusions let through. *)
Definition allowed (name : string) : Prop :=
  (name ∉ excludedFolders) /\ (name ∉ excludedDocs).

(** A call made while copying into [dest]: it creates or copies something
    strictly below [dest], along names that are all allowed, the first of
    which also passed the root exclusions if they applied there. *)
Definition within (isRootSync : bool) (dest : path) (c : syscall) : Prop :=
  (forall p, c <> WriteFile p)
  /\ exists name rest,
       call_path c = dest ++ name :: rest
       /\ Forall allowed (name :: rest)
       /\ (isRootSync = true -> rel_of dest = "" -> name ∉ exclude).

(** The copying of a tree makes calls [within] its destination only. *)
Definition copy_within (E : env) (isRootSync : bool) (kitId : string) (src : node)
  : Prop :=
  forall dest s o s',
    copyRecursive E isRootSync kitId src dest (rel_of dest) s = (o, s') ->
    exists new, calls (wld s') = new ++ calls (wld s)
                /\ Forall (within isRootSync dest) new.

(** The lines that report the outcome of one source. *)
Fixpoint reported (out : list message) : nat :=
  match out with
  | [] => 0
  | Synced _ :: out' | FailedSync _ _ :: out' => S (reported out')
  | _ :: out' => reported out'
  end.

Definition CR : ascii := Ascii.ascii_of_nat 13.

(** The characters of a kit identifier. *)
Definition is_id_char (c : ascii) : bool :=
  is_alnum c || bool_decide (c = "_"%char).

(** Membership in a list that is given in full. *)
Ltac in_list :=
  repeat first [apply list_elem_of_here | apply list_elem_of_further].

(** ** Sample inputs *)

(** An environment that refuses nothing and parses no text; its clock shows
    [T0], [T1], ... *)
Definition stamp (n : nat) : string :=
  "T" +:+ String (Ascii.ascii_of_nat (48 + n)) "".
Definition permissive : env := mkEnv stamp (fun _ => false) (fun _ => None).

(** A destination directory that does not exist yet, in a process that has
    just started. *)
Definition fresh : world := mkWorld None 0 [] [] None.

Definition on_disk (root : node) : world := mkWorld (Some root) 0 [] [] None.

(** A kit that follows the [.agent] convention. *)
Definition sample_kit : node :=
  Dir [(".agent",
        Dir [("rules", Dir [("style.md", File (Text "be brief"))]);
             ("workflows", Dir [("plan.md", File (Text "plan"))])]);
       ("README.md", File (Text "a kit"))].

(** A second kit that carries the same rules file. *)
Definition other_kit : node :=
  Dir [(".agent", Dir [("rules", Dir [("style.md", File (Text "be bold"))])])].

(** A repository with nothing the merger recognises. *)
Definition plain_repo : node :=
  Dir [("README.md", File (Text "hello")); ("src", Dir [("main.js", File (Text "x"))])].

(** A skill whose marker file is spelled in lower case. *)
Definition lowercase_marker : node :=
  Dir [("skills", Dir [("foo", Dir [("skill.md", File (Text "# foo"))])])].

(** One skill at the top level and one category folder with two skills. *)
Definition nested_skills : node :=
  Dir [("skills",
        Dir [("alpha", Dir [("SKILL.md", File (Text "# alpha"))]);
             ("tools",
              Dir [("beta", Dir [("SKILL.md", File (Text "# beta"))]);
                   ("gamma", Dir [("SKILL.md", File (Text "# gamma"))])])])].

Definition old_entry : Skill.t :=
  Skill.mk "old" ".agent/skills/old" "general" "old" "" "low" "local".

(** A target directory with an index from an earlier run and no skills. *)
Definition stale_index : node :=
  Dir [("rules", Dir []); (INDEX_FILE, File (IndexJson [old_entry]))].

(** The same with a skills folder that holds one empty category folder. *)
Definition stale_category : node :=
  Dir [("skills", Dir [("tools", Dir [])]);
       (INDEX_FILE, File (IndexJson [old_entry]))].

(** A skills folder with a category folder and no skill at the top level. *)
Definition category_only : node :=
  Dir [("skills",
        Dir [("tools",
              Dir [("beta", Dir [("SKILL.md", File (Text "# beta"))]);
                   ("gamma", Dir [("SKILL.md", File (Text "# gamma"))])])])].

(** A skill folder whose marker file declares its name and description. *)
Definition declared_marker : string :=
  fm_open +:+ name_line " " "Foo" "" +:+
  String LF (description_line " " "Bar" "" +:+ String LF ("---" +:+ String LF "# body")).
Definition declared_skill : list (string * node) :=
  [("SKILL.md", File (Text declared_marker)); ("notes.txt", File (Text "n"))].

Definition declared_target : node :=
  Dir [("skills", Dir [("foo", Dir declared_skill)])].

(** The destination after [sample_kit] was merged into a fresh directory,
    and after [other_kit] was merged next. *)
Definition after_first : world :=
  snd (mergeAgentFolder permissive sample_kit "github:u/a" fresh).
Definition after_second : world :=
  snd (mergeAgentFolder permissive other_kit "github:u/b" after_first).
(** The same first merge followed by one whose source differs from the first
    in its separators only. *)
Definition after_alias : world :=
  snd (mergeAgentFolder permissive other_kit "github/u:a" after_first).

(** A kit that ships a file named [__proto__] beside its rules, merged
    under one source and then under another. *)
Definition proto_kit : node :=
  Dir [(".agent",
        Dir [("__proto__", File (Text "p"));
             ("rules", Dir [("style.md", File (Text "be brief"))])])].
Definition after_proto_a : world :=
  snd (mergeAgentFolder permissive proto_kit "github:u/a" fresh).
Definition after_proto_b : world :=
  snd (mergeAgentFolder permissive proto_kit "github:u/b" after_proto_a).

(** Two merges whose sources both give the kit identifier [__proto__]. *)
Definition after_dashes : world :=
  snd (mergeAgentFolder permissive sample_kit "--proto--" fresh).
Definition after_underscores : world :=
  snd (mergeAgentFolder permissive other_kit "__proto__" after_dashes).

(** An environment where one file of the destination is locked. *)
Definition locked : env :=
  mkEnv stamp
        (fun c => match c with
                  | CopyFile p => bool_decide (p = ["rules"; "style.md"])
                  | _ => false
                  end)
        (fun _ => None).

(** The same kit merged three times over, with another one in between. *)
Definition repeated_runs : list (env * node * string) :=
  [(permissive, sample_kit, "github:u/a");
   (permissive, other_kit, "github:u/a");
   (permissive, sample_kit, "github:u/a")].

(** A destination whose registry file was damaged by hand. *)
Definition damaged_registry : node :=
  Dir [(REGISTRY_FILE, File (Text "{ kits: "))].

(** A registry file that holds the text of an empty object, and an
    environment whose [JSON.parse] knows that text. *)
Definition empty_object_registry : node :=
  Dir [(REGISTRY_FILE, File (Text "{}"))].
Definition parsing : env :=
  mkEnv stamp (fun _ => false)
        (fun s => if decide (s = "{}") then Some NoKits else None).

(** A kit that ships a registry file of its own, and an environment where
    the folder [rules] cannot be made. *)
Definition shipping_kit : node :=
  Dir [(".agent",
        Dir [(REGISTRY_FILE, File (Text "{}"));
             ("rules", Dir [("style.md", File (Text "be brief"))])])].
Definition no_rules : env :=
  mkEnv stamp
        (fun c => match c with
                  | Mkdir p => bool_decide (p = ["rules"])
                  | _ => false
                  end)
        (fun _ => None).
Definition after_shipping : world :=
  snd (mergeAgentFolder permissive shipping_kit "github:u/s" fresh).

(** A download whose [.agent] is a regular file. *)
Definition agent_is_file : node :=
  Dir [(".agent", File (Text "not a folder"))].

(** A repository without [.agent]: it is merged from its root. *)
Definition root_kit : node :=
  Dir [("skills", Dir [("a", Dir [("SKILL.md", File (Text "# a"));
                                  ("docs", Dir [("more.md", File (Text "m"))])])]);
       ("README.md", File (Text "readme"));
       ("package.json", File (Text "{}"));
       ("assets", Dir [("logo.png", File (Text "png"))]);
       ("workflows", Dir [("CHANGELOG.md", File (Text "log"));
                          ("run.md", File (Text "run"))])].

(** A target directory where a kit left its own rules file. *)
Definition kit_rules : node :=
  Dir [("rules", Dir [("GEMINI.md", File (Text "from a kit"))]);
       ("skills", Dir [("alpha", Dir [("SKILL.md", File (Text "# alpha"))])])].

(** A download helper that knows one kit only. *)
Definition one_kit (source : string) : option node :=
  if decide (source = "github:u/a") then Some sample_kit else None.

(** The first kit merged a second time. *)
Definition after_again : world :=
  snd (mergeAgentFolder permissive sample_kit "github:u/a" after_first).
(** * Properties *)


Lemma copyRecursive_dir E isRootSync kitId es dest rel :
  copyRecursive E isRootSync kitId (Dir es) dest rel
  = copyEntries E isRootSync kitId es dest rel.
Proof.
  simpl. induction es as [|[name entry] rest IH]; [done|].
  simpl. destruct (skipped _ _ _); [done|]. by rewrite IH.
Qed.

Lemma processDir_dir es folderName parentCategory :
  processDir (Dir es) folderName parentCategory
  = if hasSkillMd es then
      do content <-
        match find_entry "SKILL.md" es with
        | Some (File c) => ret c
        | Some (Dir _) => throw (Errno EISDIR)
        | None => throw (Errno ENOENT)
        end;
      run assign_const技能Path
            (match parentCategory with
             | EmptyString => ".agent/skills/" +:+ folderName
             | _ => ".agent/skills/" +:+ parentCategory +:+ "/" +:+ folderName
             end);
      throw ReferenceError
    else
      match parentCategory with
      | EmptyString => processEntries es
      | _ => ret tt
      end.
Proof.
  simpl. destruct (hasSkillMd es); [done|].
  destruct parentCategory; [|done].
  induction es as [|[name entry] rest IH]; [done|].
  simpl. by rewrite IH.
Qed.

(** ** Files and directories *)

Lemma find_set_entry x n es : find_entry x (set_entry x n es) = Some n.
Proof.
  induction es as [|[y m] es IH]; simpl.
  - by rewrite decide_True.
  - destruct (decide (x = y)) as [->|Hne]; simpl.
    + by rewrite decide_True.
    + by rewrite decide_False.
Qed.

Lemma find_set_entry_ne x y n es :
  x <> y -> find_entry y (set_entry x n es) = find_entry y es.
Proof.
  intros Hne. induction es as [|[z m] es IH]; simpl.
  - by rewrite decide_False.
  - destruct (decide (x = z)) as [->|Hxz]; simpl.
    + by rewrite !decide_False.
    + destruct (decide (y = z)); [done|apply IH].
Qed.

(** ** C3: nothing recognisable in the source *)

(** C3.  Merging a source that has neither the [.agent] subfolder nor any of
    the six conventional top-level folders throws the error of
    [mergeAgentFolder] and leaves the world as it was: no call is made, the
    destination directory and the registry file are untouched. *)
Theorem merge_without_content_fails E tempDir repoSource w :
  lookup_path tempDir [AGENT_FOLDER] = None ->
  (forall folder, folder ∈ commonFolders -> lookup_path tempDir [folder] = None) ->
  mergeAgentFolder E tempDir repoSource w = (Throw NoAgentFolder, w).
Proof.
  intros Hagent Hcommon. unfold mergeAgentFolder, bind.
  rewrite Hagent.
  assert (existsb (fun folder => bool_decide (is_Some (lookup_path tempDir [folder])))
                  commonFolders = false) as ->; [|done].
  apply not_true_is_false. intros Hex.
  apply existsb_exists in Hex as (folder & Hin & Hsome).
  apply bool_decide_eq_true in Hsome. apply list_elem_of_In in Hin.
  rewrite (Hcommon folder Hin) in Hsome. by destruct Hsome.
Qed.

Lemma merge_without_content_fails_witness :
  mergeAgentFolder permissive plain_repo "github:u/plain" (on_disk stale_index)
  = (Throw NoAgentFolder, on_disk stale_index).
Proof.
  apply merge_without_content_fails.
  - reflexivity.
  - intros folder Hin. unfold commonFolders in Hin.
    repeat (apply elem_of_cons in Hin as [->|Hin]; [reflexivity|]).
    by apply elem_of_nil in Hin.
Defined.

(** ** The skill indexer *)

Lemma at_path_write_same root x c d :
  write_file root [x] c = inr d ->
  at_path (Some d) [x] = Some (File c).
Proof.
  destruct root as [c0|es]; simpl; [done|].
  destruct (find_entry x es) as [[c1|es1]|] eqn:Hfind; simpl; try done;
    intros [= <-]; simpl; by rewrite find_set_entry.
Qed.

Lemma write_file_top es x c :
  (forall es', find_entry x es <> Some (Dir es')) ->
  write_file (Dir es) [x] c = inr (Dir (set_entry x (File c) es)).
Proof.
  intros Hnodir. simpl.
  destruct (find_entry x es) as [[c1|es1]|] eqn:Hfind; simpl; try done.
  by destruct (Hnodir es1).
Qed.

(** C5 (the code departs from the claim).  The marker file is detected
    whatever the casing of its name, but it is read under the fixed name
    [SKILL.md]: on a skill folder whose marker is spelled [skill.md] the
    indexer raises ENOENT and writes no index. *)
Theorem lowercase_marker_raises E quiet :
  hasSkillMd [("skill.md", File (Text "# foo"))] = true
  /\ generateSkillsIndex E quiet (on_disk lowercase_marker)
     = (Throw (Errno ENOENT), on_disk lowercase_marker).
Proof. split; reflexivity. Qed.

Lemma hasSkillMd_find es n : find_entry "SKILL.md" es = Some n -> hasSkillMd es = true.
Proof.
  induction es as [|[y m] es IH]; simpl; [done|].
  destruct (decide ("SKILL.md" = y)) as [<-|Hne]; [done|].
  intros Hfind. rewrite (IH Hfind). by rewrite orb_true_r.
Qed.

(** A folder met with a category already set is a skill or nothing: what lies
    below it is never read. *)
Lemma processDir_in_category es folderName c parentCategory s :
  hasSkillMd es = false ->
  processDir (Dir es) folderName (String c parentCategory) s = (Ok tt, s).
Proof. intros Hno. rewrite processDir_dir, Hno. done. Qed.

(** Whatever the scan meets, the array [skills] is as it was. *)
Lemma processDir_skills cur :
  forall folderName parentCategory s o s',
    processDir cur folderName parentCategory s = (o, s') -> skills s' = skills s.
Proof.
  induction cur as [c|es IH] using node_induction;
    intros folderName parentCategory s o s'.
  - by intros [= <- <-].
  - rewrite processDir_dir. destruct (hasSkillMd es).
    + unfold bind.
      destruct (find_entry "SKILL.md" es) as [[c|es1]|]; simpl;
        by intros [= <- <-].
    + destruct parentCategory; [|by intros [= <- <-]].
      clear folderName. revert s o s'.
      induction IH as [|[name entry] rest IHe _ IHrest]; intros s o s'.
      * by intros [= <- <-].
      * simpl. unfold bind at 1.
        destruct (when _ _ s) as [[[]|e] s1] eqn:Hwhen.
        -- intros Hrest. apply IHrest in Hrest. rewrite Hrest.
           unfold when in Hwhen. destruct (_ && _).
           ++ by apply IHe in Hwhen.
           ++ by injection Hwhen as <-.
        -- intros [= <- <-]. unfold when in Hwhen. destruct (_ && _).
           ++ by apply IHe in Hwhen.
           ++ done.
Qed.

(** C8 (the code departs from the claim).  With one skill at the top level
    and one category folder that holds two skills, the scan raises at the
    first skill folder it meets, where the entry's [path] is read from a
    variable that nothing declares: index generation throws and writes no
    index.  What the scan had computed by then shows a second departure: the
    top-level skill is filed under its own folder name, not under the default
    category, and a folder met under a category, as the category folder is,
    is never opened, so that a skills folder with the category folder alone
    gets an empty index. *)
Theorem nested_skills_index :
  generateSkillsIndex permissive true (on_disk nested_skills)
  = (Throw ReferenceError, on_disk nested_skills)
  /\ processDir (Dir [("alpha", Dir [("SKILL.md", File (Text "# alpha"))]);
                      ("tools",
                       Dir [("beta", Dir [("SKILL.md", File (Text "# beta"))]);
                            ("gamma", Dir [("SKILL.md", File (Text "# gamma"))])])])
                "skills" "" (mkScan [] None)
     = (Throw ReferenceError, mkScan [] (Some ".agent/skills/alpha/alpha"))
  /\ processDir (Dir [("beta", Dir [("SKILL.md", File (Text "# beta"))]);
                      ("gamma", Dir [("SKILL.md", File (Text "# gamma"))])])
                "tools" "tools" (mkScan [] None)
     = (Ok tt, mkScan [] None)
  /\ at_path (disk (snd (generateSkillsIndex permissive true (on_disk category_only))))
             [INDEX_FILE]
     = Some (File (IndexJson [])).
Proof. repeat split; reflexivity. Qed.

(** C4, as the claim states it, fails: with no [skills] folder the index of
    an earlier run stays in place, and a quiet run prints no warning. *)
Lemma stale_index_survives :
  at_path (disk (on_disk stale_index)) ["skills"] = None
  /\ generateSkillsIndex permissive true (on_disk stale_index)
     = (Ok tt, on_disk stale_index)
  /\ at_path (disk (snd (generateSkillsIndex permissive false (on_disk stale_index))))
             [INDEX_FILE]
     = Some (File (IndexJson [old_entry]))
  /\ [old_entry] <> [].
Proof. repeat split; done. Qed.

(** C4, amended.  When the [skills] folder exists and its scan returns, the
    index file is replaced by the array the scan built, whatever it held
    before (provided the file can be written: the environment does not
    refuse the call and no directory sits at its path); when the scan
    raises, so does index generation, and nothing is written; when there is
    no [skills] folder nothing is written either, the index file of an
    earlier run stays as it is, the warning is printed unless the run is
    quiet, and the call returns. *)
Theorem generateSkillsIndex_spec E quiet w :
  match at_path (disk w) ["skills"] with
  | None =>
      generateSkillsIndex E quiet w
      = (Ok tt, mkWorld (disk w) (ticks w) (calls w)
                        (if quiet then console w else NoSkillsFolder :: console w)
                        (proto_lastUpdated w))
  | Some skillsDir =>
      match processDir skillsDir "skills" "" (mkScan [] None) with
      | (Ok _, s) =>
          denied E (WriteFile [INDEX_FILE]) = false ->
          (forall es, at_path (disk w) [INDEX_FILE] <> Some (Dir es)) ->
          exists d,
            generateSkillsIndex E quiet w
            = (Ok tt, mkWorld (Some d) (ticks w) (WriteFile [INDEX_FILE] :: calls w)
                              (if quiet then console w
                               else GeneratedIndex (length (skills s)) :: console w)
                              (proto_lastUpdated w))
            /\ at_path (Some d) [INDEX_FILE] = Some (File (IndexJson (skills s)))
      | (Throw e, _) => generateSkillsIndex E quiet w = (Throw e, w)
      end
  end.
Proof.
  unfold generateSkillsIndex, bind, existsSync.
  destruct (at_path (disk w) ["skills"]) as [skillsDir|] eqn:Hskills.
  - rewrite bool_decide_eq_true_2 by eauto. simpl. rewrite Hskills.
    destruct (processDir skillsDir "skills" "" (mkScan [] None)) as [[[]|e] s];
      [|done].
    intros Hallowed Hnodir.
    destruct w as [[root|] t cs out pl]; [|done].
    cbn [disk ticks calls console proto_lastUpdated] in *.
    destruct root as [c|es]; [done|].
    unfold writeFileSync, put_file. rewrite Hallowed. cbn [disk]. cbv iota.
    rewrite write_file_top.
    + exists (Dir (set_entry INDEX_FILE (File (IndexJson (skills s))) es)). split.
      * unfold log, when, commit, print, ret. by destruct quiet.
      * simpl. by rewrite find_set_entry.
    + intros es' Hfind. apply (Hnodir es'). simpl. by rewrite Hfind.
  - rewrite bool_decide_eq_false_2 by (intros [? ?]; done). simpl.
    unfold log, when, print, ret. destruct quiet; simpl; [by destruct w|done].
Qed.

Lemma generateSkillsIndex_spec_witness :
  generateSkillsIndex permissive true (on_disk stale_index)
  = (Ok tt, on_disk stale_index)
  /\ (exists d,
        generateSkillsIndex permissive false (on_disk stale_category)
        = (Ok tt, mkWorld (Some d) 0 [WriteFile [INDEX_FILE]] [GeneratedIndex 0] None)
        /\ at_path (Some d) [INDEX_FILE] = Some (File (IndexJson [])))
  /\ generateSkillsIndex permissive true (on_disk nested_skills)
     = (Throw ReferenceError, on_disk nested_skills).
Proof.
  split; [|split].
  - exact (generateSkillsIndex_spec permissive true (on_disk stale_index)).
  - apply (generateSkillsIndex_spec permissive false (on_disk stale_category)).
    + reflexivity.
    + intros es. discriminate.
  - exact (generateSkillsIndex_spec permissive true (on_disk nested_skills)).
Defined.

(** ** Strings *)

Lemma append_nil_r s : s +:+ "" = s.
Proof. induction s as [|c s IH]; simpl; [done|by rewrite IH]. Qed.

Lemma append_assoc s1 s2 s3 : (s1 +:+ s2) +:+ s3 = s1 +:+ s2 +:+ s3.
Proof. induction s1 as [|c s1 IH]; simpl; [done|by rewrite IH]. Qed.

Lemma strip_prefix_app p s : strip_prefix p (p +:+ s) = Some s.
Proof. induction p; simpl; [done|]. by rewrite decide_True. Qed.

Lemma strip_prefix_Some p s r : strip_prefix p s = Some r <-> s = p +:+ r.
Proof.
  split; [|intros ->; apply strip_prefix_app].
  revert s. induction p as [|a p IH]; intros s; simpl.
  - congruence.
  - destruct s as [|b s]; [done|].
    case_decide; [|done]. subst. intros H. by rewrite (IH _ H).
Qed.

Lemma split_first_eq pat s :
  split_first pat s
  = match strip_prefix pat s with
    | Some after => Some (EmptyString, after)
    | None =>
        match s with
        | EmptyString => None
        | String c s' =>
            match split_first pat s' with
            | Some (before, after) => Some (String c before, after)
            | None => None
            end
        end
    end.
Proof. by destruct s. Qed.

Lemma split_first_Some pat s a b :
  split_first pat s = Some (a, b) -> s = a +:+ pat +:+ b.
Proof.
  revert a. induction s as [|c s IH]; intros a; rewrite split_first_eq.
  - destruct (strip_prefix pat "") eqn:Hp; [|done].
    intros [= <- <-]. by apply strip_prefix_Some in Hp.
  - destruct (strip_prefix pat (String c s)) eqn:Hp.
    + intros [= <- <-]. by apply strip_prefix_Some in Hp.
    + destruct (split_first pat s) as [[a' b']|]; [|done].
      intros [= <- <-]. simpl. by rewrite <- (IH a').
Qed.

Lemma split_first_None pat s a b :
  split_first pat s = None -> s <> a +:+ pat +:+ b.
Proof.
  revert a. induction s as [|c s IH]; intros a; rewrite split_first_eq.
  - destruct (strip_prefix pat "") eqn:Hp; [done|]. intros _ Heq.
    destruct a; [|done]. simpl in Heq.
    apply strip_prefix_Some in Heq. congruence.
  - destruct (strip_prefix pat (String c s)) eqn:Hp; [done|].
    destruct (split_first pat s) as [[a' b']|] eqn:Hs; [done|].
    intros _ Heq. destruct a as [|x a]; simpl in Heq.
    + apply strip_prefix_Some in Heq. congruence.
    + injection Heq as -> Heq. by apply (IH a).
Qed.

Lemma fmMatch_None s : fmMatch s = None <-> ~ has_block s.
Proof.
  unfold fmMatch, has_block. split.
  - intros Hnone (fm & rest & ->).
    rewrite strip_prefix_app in Hnone.
    destruct (split_first fm_close (fm +:+ fm_close +:+ rest)) as [[? ?]|] eqn:Hs;
      [done|]. by eapply split_first_None.
  - intros Hno. destruct (strip_prefix fm_open s) as [r|] eqn:Hp; [|done].
    destruct (split_first fm_close r) as [[fm rest]|] eqn:Hs; [|done].
    destruct Hno. exists fm, rest.
    apply strip_prefix_Some in Hp. apply split_first_Some in Hs. congruence.
Qed.

Lemma strip_prefix_past pat l c t :
  lacks c pat -> strip_prefix pat l = None ->
  strip_prefix pat (l +:+ String c t) = None.
Proof.
  unfold lacks. revert l. induction pat as [|a pat IH]; intros l; simpl; [done|].
  intros [Ha Hpat]%andb_prop. apply bool_decide_eq_true in Ha.
  destruct l as [|b l]; simpl.
  - intros _. by rewrite decide_False.
  - case_decide; [|done]. by apply IH.
Qed.

(** A pattern that has no [c] cannot be found across a [c]: the search goes
    on after it. *)
Lemma split_first_past pat l c t :
  lacks c pat -> split_first pat l = None ->
  split_first pat (l +:+ String c t)
  = match split_first pat (String c t) with
    | Some (b, a) => Some (l +:+ b, a)
    | None => None
    end.
Proof.
  intros Hc. induction l as [|x l IH].
  - intros _. simpl "+:+". by destruct (split_first pat (String c t)) as [[? ?]|].
  - rewrite (split_first_eq pat (String x l)).
    destruct (strip_prefix pat (String x l)) eqn:Hp; [done|].
    destruct (split_first pat l) as [[? ?]|] eqn:Hs; [done|]. intros _.
    change (String x l +:+ String c t) with (String x (l +:+ String c t)).
    rewrite split_first_eq.
    change (String x (l +:+ String c t)) with (String x l +:+ String c t) at 1.
    rewrite (strip_prefix_past _ _ _ _ Hc Hp), IH by done.
    by destruct (split_first pat (String c t)) as [[? ?]|].
Qed.

(** A pattern that starts with [c] is not found in a text without [c]. *)
Lemma split_first_line c p l t :
  lacks c l ->
  split_first (String c p) (l +:+ String c t)
  = match split_first (String c p) (String c t) with
    | Some (b, a) => Some (l +:+ b, a)
    | None => None
    end.
Proof.
  unfold lacks. induction l as [|x l IH]; simpl sall.
  - intros _. simpl "+:+". by destruct (split_first _ (String c t)) as [[? ?]|].
  - intros [Hx Hl]%andb_prop. apply bool_decide_eq_true in Hx.
    change (String x l +:+ String c t) with (String x (l +:+ String c t)).
    rewrite split_first_eq. simpl strip_prefix. rewrite decide_False by done.
    rewrite IH by done.
    by destruct (split_first _ (String c t)) as [[? ?]|].
Qed.

Lemma drop_spaces_blanks pad s : blanks pad -> drop_spaces (pad +:+ s) = drop_spaces s.
Proof.
  unfold blanks, is_blank. induction pad as [|c pad IH]; simpl; [done|].
  intros [[Hc _]%andb_prop Hpad]%andb_prop. rewrite Hc. by apply IH.
Qed.

Lemma string_length_drop_spaces s : String.length (drop_spaces s) <= String.length s.
Proof. induction s as [|c s IH]; simpl; [done|]. destruct (is_space c); simpl; lia. Qed.

Lemma string_length_trim_end s : String.length (trim_end s) <= String.length s.
Proof.
  induction s as [|c s IH]; simpl; [done|].
  destruct (trim_end s); [destruct (is_space c)|]; simpl in *; lia.
Qed.

Lemma plain_value_head v :
  plain_value v -> drop_spaces v = v /\ trim_end v = v.
Proof.
  intros (Hne & Htrim & _). unfold trim in Htrim.
  assert (drop_spaces v = v) as Hdrop.
  { destruct v as [|c v]; [done|]. simpl in *.
    destruct (is_space c) eqn:Hc; [|done].
    pose proof (string_length_trim_end (drop_spaces v)) as H1.
    pose proof (string_length_drop_spaces v) as H2.
    rewrite Htrim in H1. simpl in H1. lia. }
  split; [done|]. by rewrite Hdrop in Htrim.
Qed.

Lemma drop_spaces_app v s : v <> "" -> drop_spaces v = v -> drop_spaces (v +:+ s) = v +:+ s.
Proof.
  destruct v as [|c v]; [done|]. simpl. intros _.
  destruct (is_space c) eqn:Hc; [|done].
  intros Heq. pose proof (string_length_drop_spaces v) as Hlen.
  rewrite Heq in Hlen. simpl in Hlen. lia.
Qed.

Lemma take_line_blanks pad : blanks pad -> take_line pad = pad.
Proof.
  unfold blanks, is_blank. induction pad as [|c pad IH]; simpl; [done|].
  intros [[_ Hc]%andb_prop Hpad]%andb_prop. apply negb_true_iff in Hc.
  rewrite Hc. by rewrite IH.
Qed.

Lemma take_line_app a b :
  take_line a = a -> take_line (a +:+ b) = a +:+ take_line b.
Proof.
  induction a as [|c a IH]; simpl; [done|].
  destruct (is_line_terminator c); [done|]. intros [= Ha]. by rewrite IH.
Qed.

Lemma trim_end_blanks pad : blanks pad -> trim_end pad = "".
Proof.
  unfold blanks, is_blank. induction pad as [|c pad IH]; simpl; [done|].
  intros [[Hc _]%andb_prop Hpad]%andb_prop. by rewrite IH, Hc.
Qed.

Lemma trim_end_app_blanks v pad : blanks pad -> trim_end (v +:+ pad) = trim_end v.
Proof.
  intros Hpad. induction v as [|c v IH]; simpl.
  - by apply trim_end_blanks.
  - by rewrite IH.
Qed.

(** What the two field patterns capture from a line that holds a value. *)
Lemma capture_value pad1 v pad2 rest :
  blanks pad1 -> plain_value v -> blanks pad2 ->
  rest = "" \/ (exists t, rest = String LF t) ->
  trim (take_line (drop_spaces (pad1 +:+ v +:+ pad2 +:+ rest))) = v.
Proof.
  intros Hpad1 Hv Hpad2 Hrest.
  destruct (plain_value_head v Hv) as [Hdrop Htrim].
  destruct Hv as (Hne & _ & Hline).
  rewrite drop_spaces_blanks, drop_spaces_app by done.
  rewrite take_line_app, take_line_app by (done || by apply take_line_blanks).
  assert (take_line rest = "") as ->.
  { destruct Hrest as [->|[t ->]]; done. }
  rewrite append_nil_r. unfold trim.
  rewrite drop_spaces_app, trim_end_app_blanks by done. done.
Qed.

(** ** C9: name and description of a skill *)

Lemma lacks_app c a b : lacks c a -> lacks c b -> lacks c (a +:+ b).
Proof.
  unfold lacks. induction a as [|x a IH]; simpl; [done|].
  intros [-> Ha]%andb_prop Hb. by apply IH.
Qed.

Lemma lacks_blanks pad : blanks pad -> lacks LF pad.
Proof.
  unfold blanks, lacks, is_blank. induction pad as [|x pad IH]; simpl; [done|].
  intros [[_ Hx]%andb_prop Hpad]%andb_prop. rewrite IH by done.
  rewrite andb_true_r. apply bool_decide_eq_true. by intros ->.
Qed.

Lemma lacks_take_line v : take_line v = v -> lacks LF v.
Proof.
  unfold lacks. induction v as [|x v IH]; simpl; [done|].
  destruct (is_line_terminator x) eqn:Hx; [done|]. intros [= Hv].
  rewrite IH by done. rewrite andb_true_r. apply bool_decide_eq_true. by intros ->.
Qed.

Lemma lacks_value_line key pad1 v pad2 :
  lacks LF key -> blanks pad1 -> plain_value v -> blanks pad2 ->
  lacks LF (key +:+ pad1 +:+ v +:+ pad2).
Proof.
  intros Hkey Hpad1 (_ & _ & Hv) Hpad2.
  repeat apply lacks_app; auto using lacks_blanks, lacks_take_line.
Qed.

Lemma strip_prefix_diff a p b s : a <> b -> strip_prefix (String a p) (String b s) = None.
Proof. intros Hne. simpl. by rewrite decide_False. Qed.

Lemma split_first_here pat s : split_first pat (pat +:+ s) = Some ("", s).
Proof. by rewrite split_first_eq, strip_prefix_app. Qed.

Lemma split_first_head c p t b a :
  split_first (String c p) (String c t) = Some (b, a) ->
  b = "" \/ exists b', b = String c b'.
Proof.
  rewrite split_first_eq.
  destruct (strip_prefix (String c p) (String c t)); [intros [= <- _]; by left|].
  destruct (split_first (String c p) t) as [[b0 a0]|]; [|done].
  intros [= <- _]. right. by eexists.
Qed.

(** The block is read up to the first closing line, and each field pattern
    captures the value of its line. *)
Lemma fields_of_block pad1 Foo pad2 pad3 Bar pad4 tail :
  blanks pad1 -> plain_value Foo -> blanks pad2 ->
  blanks pad3 -> plain_value Bar -> blanks pad4 ->
  split_first "description:" (name_line pad1 Foo pad2) = None ->
  (exists t, tail = String LF t) ->
  is_Some (split_first fm_close tail) ->
  exists fm,
    fmMatch (fm_open +:+ name_line pad1 Foo pad2 +:+
             String LF (description_line pad3 Bar pad4 +:+ tail)) = Some fm
    /\ trim <$> fieldMatch "name:" fm = Some Foo
    /\ trim <$> fieldMatch "description:" fm = Some Bar.
Proof.
  intros Hp1 HFoo Hp2 Hp3 HBar Hp4 Hnodesc [t ->] [[b a] Hclose].
  assert (lacks LF (name_line pad1 Foo pad2)) as Hnl
    by (by apply lacks_value_line).
  assert (lacks LF (description_line pad3 Bar pad4)) as Hdl
    by (by apply lacks_value_line).
  exists (name_line pad1 Foo pad2 +:+ String LF (description_line pad3 Bar pad4 +:+ b)).
  split; [|split].
  - unfold fmMatch. rewrite strip_prefix_app.
    unfold fm_close in *. rewrite split_first_line by done.
    rewrite (split_first_eq _ (String LF _)).
    assert (strip_prefix (String LF "---")
              (String LF (description_line pad3 Bar pad4 +:+ String LF t)) = None)
      as -> by reflexivity.
    rewrite split_first_line, Hclose by done. done.
  - unfold fieldMatch, name_line. rewrite !append_assoc.
    rewrite split_first_here. simpl. f_equal.
    rewrite <- !append_assoc. rewrite !append_assoc.
    apply capture_value; eauto.
  - unfold fieldMatch. rewrite split_first_past by done.
    rewrite (split_first_eq _ (String LF _)).
    rewrite strip_prefix_diff by done.
    unfold description_line at 1. rewrite !append_assoc.
    rewrite split_first_here. simpl. f_equal.
    apply capture_value; [done..|].
    apply split_first_head in Hclose as [->|[b' ->]]; eauto.
Qed.

(** X22.  A folder whose marker file can be read: whatever the file holds,
    the path is assigned to a global that nothing reads and the scan raises
    where the entry is put together, at the read of the undeclared
    [技能Path].  The array of skills is as it was. *)
Theorem skill_folder_raises es folderName parentCategory c s :
  find_entry "SKILL.md" es = Some (File c) ->
  processDir (Dir es) folderName parentCategory s
  = (Throw ReferenceError,
     mkScan (skills s)
            (Some (match parentCategory with
                   | EmptyString => ".agent/skills/" +:+ folderName
                   | _ => ".agent/skills/" +:+ parentCategory +:+ "/" +:+ folderName
                   end))).
Proof.
  intros Hfind. rewrite processDir_dir, (hasSkillMd_find _ _ Hfind).
  unfold bind. by rewrite Hfind.
Qed.

Lemma skill_folder_raises_witness :
  processDir (Dir declared_skill) "foo" "tools" (mkScan [old_entry] None)
  = (Throw ReferenceError, mkScan [old_entry] (Some ".agent/skills/tools/foo")).
Proof.
  exact (skill_folder_raises declared_skill "foo" "tools" (Text declared_marker)
           (mkScan [old_entry] None) eq_refl).
Defined.

(** C9 (the code departs from the claim).  For a skill folder whose marker
    file opens with a block that holds [name: Foo] and [description: Bar],
    lines 184 to 194 do work out the name [Foo] and the description [Bar],
    but no entry is made of them: the scan raises at the read of the
    undeclared [技能Path] and index generation throws without writing an
    index.  A marker file without a block fares the same. *)
Theorem marker_fields :
  declared_name "foo" (Text declared_marker) = "Foo"
  /\ declared_description (Text declared_marker) = "Bar"
  /\ processDir (Dir declared_skill) "foo" "" (mkScan [] None)
     = (Throw ReferenceError, mkScan [] (Some ".agent/skills/foo"))
  /\ generateSkillsIndex permissive true (on_disk declared_target)
     = (Throw ReferenceError, on_disk declared_target)
  /\ declared_name "foo" (Text "# foo") = "foo"
  /\ declared_description (Text "# foo") = ""
  /\ processDir (Dir [("SKILL.md", File (Text "# foo"))]) "foo" "" (mkScan [] None)
     = (Throw ReferenceError, mkScan [] (Some ".agent/skills/foo")).
Proof. repeat split; reflexivity. Qed.

(** X23.  The values that lines 184 to 194 give [name] and [description]: those of
    the lines [name: Foo] and [description: Bar] when the marker file opens
    with a block that starts with these two lines (blanks around the values
    allowed, more lines allowed before the closing line); the folder name
    and the empty description when it has no block.  The patterns are not
    tied to the start of a line: of [surname: Smith] and [name: Foo] the
    first one gives the name. *)
Theorem marker_values folderName s :
  (forall pad1 Foo pad2 pad3 Bar pad4 tail,
     blanks pad1 -> plain_value Foo -> blanks pad2 ->
     blanks pad3 -> plain_value Bar -> blanks pad4 ->
     split_first "description:" (name_line pad1 Foo pad2) = None ->
     (exists t, tail = String LF t) ->
     is_Some (split_first fm_close tail) ->
     s = fm_open +:+ name_line pad1 Foo pad2 +:+
         String LF (description_line pad3 Bar pad4 +:+ tail) ->
     declared_name folderName (Text s) = Foo
     /\ declared_description (Text s) = Bar)
  /\ (~ has_block s ->
      declared_name folderName (Text s) = folderName
      /\ declared_description (Text s) = "")
  /\ declared_name folderName
       (Text (fm_open +:+ "surname: Smith" +:+ String LF ("name: Foo" +:+ fm_close)))
     = "Smith".
Proof.
  split; [|split].
  - intros pad1 Foo pad2 pad3 Bar pad4 tail Hp1 HFoo Hp2 Hp3 HBar Hp4 Hnodesc Ht Hclose ->.
    destruct (fields_of_block pad1 Foo pad2 pad3 Bar pad4 tail) as (fm & Hfm & Hname & Hdesc);
      try done.
    unfold declared_name, declared_description. cbn [frontmatter]. rewrite Hfm.
    destruct (fieldMatch "name:" fm); [|done].
    destruct (fieldMatch "description:" fm); [|done].
    simpl in Hname, Hdesc. split; congruence.
  - intros Hno%fmMatch_None.
    unfold declared_name, declared_description. cbn [frontmatter]. by rewrite Hno.
  - reflexivity.
Qed.

Lemma marker_values_witness :
  declared_name "foo" (Text declared_marker) = "Foo"
  /\ declared_description (Text declared_marker) = "Bar".
Proof.
  destruct (marker_values "foo" declared_marker) as (Hblock & _ & _).
  apply (Hblock " " "Foo" "" " " "Bar" "" (String LF ("---" +:+ String LF "# body")));
    try reflexivity.
  - repeat split; try reflexivity. discriminate.
  - repeat split; try reflexivity. discriminate.
  - by eexists.
  - by eexists.
Defined.

(** ** The copying phase of a merge *)

Lemma bind_inv {S A B} (m : M S A) (k : A -> M S B) s o s' :
  bind m k s = (o, s') ->
  (exists a s1, m s = (Ok a, s1) /\ k a s1 = (o, s'))
  \/ (exists e, m s = (Throw e, s') /\ o = Throw e).
Proof.
  unfold bind. destruct (m s) as [[a|e] s1]; intros H.
  - left. eauto.
  - right. injection H as <- <-. eauto.
Qed.

Lemma copied_paths_app cs1 cs2 :
  copied_paths (cs1 ++ cs2) = copied_paths cs1 ++ copied_paths cs2.
Proof. apply omap_app. Qed.

Lemma rel_of_snoc dest name : rel_of (dest ++ [name]) = path_join (rel_of dest) name.
Proof. unfold rel_of. by rewrite fold_left_app. Qed.

(** The assignment to [registry.files]. *)
Lemma set_owner_kits P k t r : Registry.kits (set_owner P k t r) = Registry.kits r.
Proof. unfold set_owner. by destruct (_ && _). Qed.

Lemma set_owner_takes P k t r :
  takes r P -> Registry.files (set_owner P k t r) !! P = Some (Owner.mk k t).
Proof.
  intros Htakes. unfold set_owner.
  destruct (bool_decide (P = "__proto__")) eqn:HP; simpl.
  - apply bool_decide_eq_true in HP.
    destruct Htakes as [Hne|Hsome]; [done|].
    rewrite bool_decide_eq_true_2 by done. simpl. by rewrite lookup_insert_eq.
  - by rewrite lookup_insert_eq.
Qed.

Lemma set_owner_other P Q k t r :
  Q <> P -> Registry.files (set_owner P k t r) !! Q = Registry.files r !! Q.
Proof.
  intros Hne. unfold set_owner. destruct (_ && _); [done|].
  simpl. by rewrite lookup_insert_ne.
Qed.

Lemma set_owner_refused P k t r : ~ takes r P -> set_owner P k t r = r.
Proof.
  intros Hno. unfold set_owner.
  rewrite bool_decide_eq_true_2.
  - rewrite bool_decide_eq_false_2; [done|]. intros Hsome. apply Hno. by right.
  - destruct (decide (P = "__proto__")); [done|]. destruct Hno. by left.
Qed.

Lemma advances_refl E kitId s : advances E kitId s s [].
Proof.
  unfold advances. split_and!; try done.
  - destruct (Registry.kits (registry s) !! kitId) as [K|]; [|done].
    exists []. rewrite app_nil_r. split_and!; try done.
    + by destruct K.
    + intros P. split; [by left|]. intros [?|Hin]; [done|]. by apply elem_of_nil in Hin.
  - intros P Hin. by apply elem_of_nil in Hin.
Qed.

Lemma advances_takes E kitId s s' new P :
  advances E kitId s s' new -> takes (registry s) P -> takes (registry s') P.
Proof.
  intros (_ & _ & _ & _ & _ & _ & _ & Hown & Hkeep) [Hne|Hsome]; [by left|].
  right. destruct (decide (P ∈ copied_paths new)) as [Hin|Hnot].
  - destruct (Hown P Hin (or_intror Hsome)) as (i & _ & ->). eauto.
  - rewrite Hkeep by auto. done.
Qed.

Lemma advances_refuses E kitId s s' new P :
  advances E kitId s s' new -> ~ takes (registry s) P -> ~ takes (registry s') P.
Proof.
  intros (_ & _ & _ & _ & _ & _ & _ & _ & Hkeep) Hno [Hne|Hsome].
  - apply Hno. by left.
  - rewrite Hkeep in Hsome by auto. apply Hno. by right.
Qed.

Lemma advances_trans E kitId s1 s2 s3 new1 new2 :
  advances E kitId s1 s2 new1 -> advances E kitId s2 s3 new2 ->
  advances E kitId s1 s3 (new2 ++ new1).
Proof.
  intros Hadv1 Hadv2.
  pose proof (fun P => advances_takes _ _ _ _ _ P Hadv1) as Htakes.
  pose proof (fun P => advances_refuses _ _ _ _ _ P Hadv1) as Hrefuses.
  destruct Hadv1 as (Hc1 & Hw1 & Ht1 & Ho1 & Hp1 & Hk1 & Hkit1 & Hown1 & Hkeep1).
  destruct Hadv2 as (Hc2 & Hw2 & Ht2 & Ho2 & Hp2 & Hk2 & Hkit2 & Hown2 & Hkeep2).
  unfold advances. split_and!.
  - by rewrite Hc2, Hc1, app_assoc.
  - by apply Forall_app.
  - lia.
  - congruence.
  - congruence.
  - intros k Hk. by rewrite Hk2, Hk1.
  - destruct (Registry.kits (registry s1) !! kitId) as [K|].
    + destruct Hkit1 as (x1 & HK1 & Hnd1 & Hin1). rewrite HK1 in Hkit2.
      destruct Hkit2 as (x2 & HK2 & Hnd2 & Hin2). simpl in *.
      exists (x1 ++ x2). rewrite app_assoc. split; [done|]. split; [auto|].
      intros P. rewrite Hin2, Hin1, copied_paths_app, elem_of_app. tauto.
    + by rewrite Hkit1 in Hkit2.
  - intros P. rewrite copied_paths_app, elem_of_app. intros Hin HP.
    destruct (decide (P ∈ copied_paths new2)) as [Hin2|Hnot].
    + destruct (Hown2 P Hin2 (Htakes P HP)) as (i & Hi & Hfile).
      exists i. split; [lia|done].
    + destruct Hin as [?|Hin1]; [done|].
      destruct (Hown1 P Hin1 HP) as (i & Hi & Hfile).
      exists i. split; [lia|]. rewrite Hkeep2 by auto. done.
  - intros P. rewrite copied_paths_app, not_elem_of_app. intros [[Hn2 Hn1]|Hno].
    + rewrite Hkeep2, Hkeep1 by auto. done.
    + rewrite Hkeep2, Hkeep1 by auto. done.
Qed.

(** A refused or failed call leaves the world as it was. *)
Lemma put_file_inv E call c p w o w' :
  put_file E call c p w = (o, w') ->
  (exists d, o = Ok tt /\ w' = commit d call w)
  \/ (exists e, o = Throw e /\ w' = w).
Proof.
  unfold put_file. destruct (denied E call); [intros [= <- <-]; eauto|].
  destruct (disk w) as [root|]; [|intros [= <- <-]; eauto].
  destruct (write_file root p c); intros [= <- <-]; eauto.
Qed.

Lemma mkdirSync_inv E p w o w' :
  mkdirSync E p w = (o, w') ->
  (exists d, o = Ok tt /\ w' = commit d (Mkdir p) w)
  \/ (exists e, o = Throw e /\ w' = w).
Proof.
  unfold mkdirSync. destruct (denied E (Mkdir p)); [intros [= <- <-]; eauto|].
  destruct (mkdirp (disk w) p); intros [= <- <-]; eauto.
Qed.

Lemma advances_mkdir E kitId s d p :
  advances E kitId s (mkM (registry s) (commit d (Mkdir p) (wld s))) [Mkdir p].
Proof.
  unfold advances. simpl. split_and!; try done.
  - by repeat constructor.
  - destruct (Registry.kits (registry s) !! kitId) as [K|]; [|done].
    exists []. rewrite app_nil_r. split_and!; try done.
    + by destruct K.
    + intros P. split; [by left|]. intros [?|Hin]; [done|]. by apply elem_of_nil in Hin.
  - intros P Hin. by apply elem_of_nil in Hin.
Qed.

Lemma track_tracked E kitId relPath r w :
  exists o,
    track E kitId relPath (mkM r w)
    = (o, mkM (tracked kitId relPath (clock E (ticks w)) r) (tick w)).
Proof.
  unfold track, tracked, bind, liftW, now, get_registry, set_registry, tick.
  cbn [registry wld].
  destruct (Registry.kits (set_owner relPath kitId (clock E (ticks w)) r) !! kitId)
    as [k|]; [|by eexists].
  destruct (includes (Kit.files k) relPath); by eexists.
Qed.

(** The [try] block of a file entry: it never throws, and it either leaves
    the state as it was (the copy failed) or records the copy. *)
Lemma copy_file_step E kitId c destPath relPath s :
  exists s',
    try_ignore (run liftW (copyFileSync E c destPath); track E kitId relPath) s
    = (Ok tt, s')
    /\ ((exists e, copyFileSync E c destPath (wld s) = (Throw e, wld s) /\ s' = s)
        \/ (exists d, copyFileSync E c destPath (wld s)
                      = (Ok tt, commit d (CopyFile destPath) (wld s))
                      /\ s' = mkM (tracked kitId relPath (clock E (ticks (wld s)))
                                           (registry s))
                                  (tick (commit d (CopyFile destPath) (wld s))))).
Proof.
  unfold try_ignore, bind, liftW.
  destruct (copyFileSync E c destPath (wld s)) as [o w1] eqn:Hcopy.
  pose proof Hcopy as Hcopy'.
  apply put_file_inv in Hcopy as [(d & -> & ->)|(e & -> & ->)].
  2:{ exists s. split; [by destruct s|]. left. eauto. }
  destruct (track_tracked E kitId relPath (registry s)
              (commit d (CopyFile destPath) (wld s))) as [o ->].
  eexists. split; [by destruct o|]. right. eauto.
Qed.

Lemma tracked_advances E kitId dest name d s :
  advances E kitId s
    (mkM (tracked kitId (path_join (rel_of dest) name) (clock E (ticks (wld s)))
                  (registry s))
         (tick (commit d (CopyFile (dest ++ [name])) (wld s))))
    [CopyFile (dest ++ [name])].
Proof.
  set (relPath := path_join (rel_of dest) name).
  set (t := clock E (ticks (wld s))).
  assert (copied_paths [CopyFile (dest ++ [name])] = [relPath]) as Hcp.
  { simpl. unfold relPath. by rewrite rel_of_snoc. }
  assert (Registry.files (tracked kitId relPath t (registry s))
          = Registry.files (set_owner relPath kitId t (registry s))) as Hfiles.
  { unfold tracked. cbv zeta. destruct (Registry.kits _ !! kitId) as [k|]; [|done].
    by destruct (includes _ _). }
  unfold advances. rewrite Hcp. cbn [wld registry tick commit calls ticks console
                                     proto_lastUpdated].
  split_and!; try done.
  - repeat constructor. done.
  - lia.
  - intros k Hk. unfold tracked. cbv zeta. rewrite set_owner_kits.
    destruct (Registry.kits (registry s) !! kitId) as [K|]; [|by rewrite set_owner_kits].
    destruct (includes _ _); [by rewrite set_owner_kits|].
    simpl. rewrite lookup_insert_ne by done. by rewrite set_owner_kits.
  - unfold tracked. cbv zeta. rewrite set_owner_kits.
    destruct (Registry.kits (registry s) !! kitId) as [K|] eqn:HK;
      [|by rewrite set_owner_kits].
    destruct (includes (Kit.files K) relPath) eqn:Hinc.
    + apply bool_decide_eq_true in Hinc. exists []. rewrite app_nil_r.
      rewrite set_owner_kits, HK. split_and!; try done.
      * by destruct K.
      * intros P. split; [by left|].
        intros [?|Hin]; [done|]. by apply list_elem_of_singleton in Hin as ->.
    + apply bool_decide_eq_false in Hinc. exists [relPath]. simpl.
      rewrite lookup_insert_eq. split_and!; try done.
      * intros Hnd. apply NoDup_app. split_and!; try done.
        -- intros P HP ->%list_elem_of_singleton. done.
        -- apply NoDup_singleton.
      * intros P. rewrite elem_of_app. tauto.
  - intros P ->%list_elem_of_singleton Htakes. exists (ticks (wld s)).
    split; [lia|]. rewrite Hfiles. by apply set_owner_takes.
  - intros P HP. rewrite Hfiles.
    destruct (decide (P = relPath)) as [->|Hne]; [|by apply set_owner_other].
    destruct HP as [HP|HP].
    + destruct HP. by apply list_elem_of_singleton.
    + by rewrite set_owner_refused.
Qed.

Lemma liftW_same {A} (m : M world A) s o :
  m (wld s) = (o, wld s) -> liftW m s = (o, s).
Proof. unfold liftW. intros ->. by destruct s. Qed.

(** The directory of the destination is there before the entry is merged. *)
Lemma ensure_dir_advances E kitId destPath s o s' :
  (do ex <- liftW (existsSync destPath);
   when (negb ex) (liftW (mkdirSync E destPath))) s = (o, s') ->
  exists new, advances E kitId s s' new.
Proof.
  unfold bind, liftW, existsSync. cbn [negb when wld registry ret].
  destruct (bool_decide _); cbn [negb when wld registry ret].
  - destruct s. intros [= <- <-]. exists []. by apply advances_refl.
  - destruct (mkdirSync E destPath (wld s)) as [o1 w1] eqn:Hmk.
    apply mkdirSync_inv in Hmk as [(d & -> & ->)|(e & -> & ->)]; intros [= <- <-].
    + eexists. by apply advances_mkdir.
    + exists []. destruct s. by apply advances_refl.
Qed.

Lemma copyEntries_advances E isRootSync kitId es :
  Forall (fun e => copy_advances E isRootSync kitId (snd e)) es ->
  forall dest s o s',
    copyEntries E isRootSync kitId es dest (rel_of dest) s = (o, s') ->
    exists new, advances E kitId s s' new.
Proof.
  induction 1 as [|[name entry] rest Hentry _ IH]; intros dest s o s'.
  - intros [= <- <-]. exists []. by apply advances_refl.
  - simpl. destruct (skipped _ _ _); [by apply IH|].
    intros Hrun. apply bind_inv in Hrun as [([] & s1 & Hbody & Hrest)|(e & Hbody & ->)].
    + assert (exists new, advances E kitId s s1 new) as [new1 Hadv1].
      { destruct entry as [c|sub].
        - destruct (copy_file_step E kitId c (dest ++ [name])
                      (path_join (rel_of dest) name) s) as (s2 & Hstep & Hcase).
          rewrite Hbody in Hstep. injection Hstep as <-.
          destruct Hcase as [(e & _ & ->)|(d & _ & ->)].
          + exists []. by apply advances_refl.
          + eexists. apply tracked_advances.
        - apply bind_inv in Hbody as [(ex & s2 & Hex & Hbody)|(e & Hex & [=])].
          apply bind_inv in Hbody as [([] & s3 & Hmk & Hcopy)|(e & Hmk & [=])].
          assert (exists new, advances E kitId s s3 new) as [newa Ha].
          { apply (ensure_dir_advances E kitId (dest ++ [name]) s (Ok tt)).
            unfold bind. by rewrite Hex, Hmk. }
          rewrite <- rel_of_snoc in Hcopy.
          apply Hentry in Hcopy as [newb Hb].
          eexists. by eapply advances_trans. }
      apply IH in Hrest as [new2 Hadv2].
      eexists. by eapply advances_trans.
    + destruct entry as [c|sub].
      * destruct (copy_file_step E kitId c (dest ++ [name])
                      (path_join (rel_of dest) name) s) as (s2 & Hstep & _).
        rewrite Hbody in Hstep. done.
      * apply bind_inv in Hbody as [(ex & s2 & Hex & Hbody)|(e' & Hex & _)].
        -- apply bind_inv in Hbody as [([] & s3 & Hmk & Hcopy)|(e' & Hmk & _)].
           ++ assert (exists new, advances E kitId s s3 new) as [newa Ha].
              { apply (ensure_dir_advances E kitId (dest ++ [name]) s (Ok tt)).
                unfold bind. by rewrite Hex, Hmk. }
              rewrite <- rel_of_snoc in Hcopy.
              apply Hentry in Hcopy as [newb Hb].
              eexists. by eapply advances_trans.
           ++ apply (ensure_dir_advances E kitId (dest ++ [name]) s (Throw e')).
              unfold bind. by rewrite Hex, Hmk.
        -- unfold liftW, existsSync in Hex. simpl in Hex. done.
Qed.

Lemma copyRecursive_advances E isRootSync kitId src :
  copy_advances E isRootSync kitId src.
Proof.
  induction src as [c|es IH] using node_induction; intros dest s o s'.
  - simpl. intros [= <- <-]. exists []. by apply advances_refl.
  - rewrite copyRecursive_dir. by apply copyEntries_advances.
Qed.

(** ** A whole merge *)

Lemma loadRegistry_world E w o w' : loadRegistry E w = (o, w') -> w' = w.
Proof.
  unfold loadRegistry, bind, existsSync, readFileSync.
  destruct (bool_decide _); simpl; [|by intros [= _ <-]].
  destruct (at_path (disk w) [REGISTRY_FILE]) as [[[s|r|l]|es]|];
    try (by intros [= _ <-]).
  simpl. destruct (JSON_parse E s); by intros [= _ <-].
Qed.

Lemma stored_saved w r :
  at_path (disk w) [REGISTRY_FILE] = Some (File (RegistryJson r)) -> stored w r.
Proof.
  intros Hat E. unfold loads, loadRegistry, bind, existsSync, readFileSync.
  rewrite bool_decide_eq_true_2 by (rewrite Hat; eauto). simpl. by rewrite Hat.
Qed.

Lemma stored_absent w :
  at_path (disk w) [REGISTRY_FILE] = None -> stored w Registry.empty.
Proof.
  intros Hat E. unfold loads, loadRegistry, bind, existsSync.
  rewrite bool_decide_eq_false_2; [done|]. rewrite Hat. by intros [? ?].
Qed.

Lemma loads_inj E w r1 r2 : loads E w r1 -> loads E w r2 -> r1 = r2.
Proof. unfold loads. congruence. Qed.

Lemma stored_loads E w r1 r2 : stored w r1 -> loads E w r2 -> r2 = r1.
Proof. intros H1 H2. eapply loads_inj; [exact H2|apply H1]. Qed.

Lemma stored_inj w r1 r2 : stored w r1 -> stored w r2 -> r1 = r2.
Proof. intros H1 H2. symmetry. eapply stored_loads; [exact H1|apply (H2 permissive)]. Qed.

(** The destination directory is made when it is missing; the registry read
    afterwards is the one that was there before. *)
Lemma merge_prologue E w o w1 :
  (do ex <- existsSync []; when (negb ex) (mkdirSync E [])) w = (o, w1) ->
  o = Ok tt ->
  ticks w1 = ticks w /\ console w1 = console w
  /\ proto_lastUpdated w1 = proto_lastUpdated w
  /\ (forall E', fst (loadRegistry E' w1) = fst (loadRegistry E' w))
  /\ exists pre, calls w1 = pre ++ calls w /\ copied_paths pre = []
                 /\ Forall (fun c => forall p, c <> WriteFile p) pre.
Proof.
  unfold bind, existsSync. cbn [when negb ret].
  destruct (bool_decide _) eqn:Hex; cbn [when negb ret].
  - intros [= <- <-] _. repeat split. by exists [].
  - intros Hmk ->. pose proof Hmk as Hmk'.
    apply mkdirSync_inv in Hmk' as [(d & _ & ->)|(e & [=] & _)].
    apply bool_decide_eq_false in Hex.
    assert (disk w = None) as Hnone.
    { destruct (disk w) as [root|] eqn:Hd; [|done]. destruct Hex. simpl. eauto. }
    assert (d = Dir []) as ->.
    { revert Hmk. unfold mkdirSync. destruct (denied _ _); [done|].
      rewrite Hnone. simpl. unfold commit. by intros [= ->]. }
    repeat split.
    + intros E'. unfold loadRegistry, bind, existsSync. simpl. by rewrite Hnone.
    + exists [Mkdir []]. repeat split. repeat constructor. done.
Qed.

Lemma saveRegistry_inv E r w o w' :
  saveRegistry E r w = (o, w') -> o = Ok tt ->
  w' = mkWorld (disk w') (ticks w) (WriteFile [REGISTRY_FILE] :: calls w) (console w)
               (proto_lastUpdated w)
  /\ at_path (disk w') [REGISTRY_FILE] = Some (File (RegistryJson r)).
Proof.
  unfold saveRegistry, writeFileSync, put_file.
  destruct (denied _ _); [by intros [= <- <-]|].
  destruct (disk w) as [root|]; [|by intros [= <- <-]].
  destruct (write_file root _ _) as [e|d] eqn:Hw; [by intros [= <- <-]|].
  intros [= <- <-] _. split; [done|].
  by eapply at_path_write_same.
Qed.

Lemma copied_by_iff w w' new :
  calls w' = new ++ calls w ->
  forall P, copied_by w w' P <-> P ∈ copied_paths new.
Proof.
  intros Hcalls P. unfold copied_by. split.
  - intros (new' & Hcalls' & Hin). rewrite Hcalls in Hcalls'.
    by apply app_inv_tail in Hcalls' as <-.
  - eauto.
Qed.

(** The lines 80 to 88: the entry of the kit is found or made, unless
    [registry.kits] inherits something under the kit's name, and the time of
    the update is assigned.  They never throw. *)
Lemma merge_entry E repoSource r0 w1 :
  exists r2 w3,
    (do registry1 <-
       match Registry.kits r0 !! kitId_of repoSource with
       | Some _ => ret r0
       | None =>
           do truthy <- inherited (kitId_of repoSource);
           if truthy then ret r0
           else
             do t <- now E;
             ret (Registry.mk (<[kitId_of repoSource := new_kit repoSource t]>
                                 (Registry.kits r0))
                              (Registry.files r0))
       end;
     do t <- now E;
     set_lastUpdated (kitId_of repoSource) t registry1) w1 = (Ok r2, w3)
    /\ entered E repoSource r0 w1 r2 w3.
Proof.
  unfold entered. set (kitId := kitId_of repoSource). cbv zeta.
  unfold enters, kit_files.
  destruct (Registry.kits r0 !! kitId) as [K|] eqn:HK.
  - unfold bind, ret, now, set_lastUpdated. cbn [ticks]. rewrite HK.
    eexists _, _. split; [reflexivity|]. cbn.
    rewrite bool_decide_eq_false_2 by (by intros [_ ?]).
    split_and!; try done; try lia.
    + intros k Hk. by rewrite lookup_alter_ne.
    + intros Hno. destruct Hno. left. eauto.
    + intros _. rewrite lookup_alter_eq, HK. simpl. eexists. split; [done|].
      by split_and!.
  - unfold bind at 1 2, inherited. destruct (inherits w1 kitId) eqn:Hinh.
    + unfold bind, ret, now, set_lastUpdated, inherited. cbn [ticks]. rewrite HK.
      unfold bind. cbv beta iota.
      assert (inherits
                (mkWorld (disk w1) (S (ticks w1)) (calls w1) (console w1)
                         (proto_lastUpdated w1)) kitId = true) as -> by exact Hinh.
      cbn [negb]. unfold when, pollute.
      destruct (bool_decide (kitId = "__proto__")) eqn:Hproto.
      * eexists _, _. split; [reflexivity|]. cbn.
        apply bool_decide_eq_true in Hproto.
        rewrite bool_decide_eq_true_2 by done.
        split_and!; try done; try lia.
        intros [[? [=]]|[=]].
      * eexists _, _. split; [reflexivity|]. cbn.
        apply bool_decide_eq_false in Hproto.
        rewrite bool_decide_eq_false_2 by (by intros [? _]).
        split_and!; try done; try lia.
        intros [[? [=]]|[=]].
    + unfold bind, ret, now, set_lastUpdated. cbn [ticks].
      cbn [Registry.kits]. rewrite lookup_insert_eq.
      eexists _, _. split; [reflexivity|]. cbn.
      rewrite bool_decide_eq_false_2.
      2:{ intros [Hproto _]. rewrite Hproto in Hinh. by vm_compute in Hinh. }
      split_and!; try done; try lia.
      all: try (intros k Hk; rewrite lookup_alter_ne, lookup_insert_ne by done; done).
      all: try (intros Hno; destruct Hno; by right).
      intros _. rewrite lookup_alter_eq, lookup_insert_eq. simpl.
      eexists. split; [done|]. by split_and!.
Qed.
Lemma merge_entry_inv E repoSource r0 w1 (K : Registry.t -> M world unit) o w' :
  (do registry1 <-
     match Registry.kits r0 !! kitId_of repoSource with
     | Some _ => ret r0
     | None =>
         do truthy <- inherited (kitId_of repoSource);
         if truthy then ret r0
         else
           do t <- now E;
           ret (Registry.mk (<[kitId_of repoSource := new_kit repoSource t]>
                               (Registry.kits r0))
                            (Registry.files r0))
     end;
   do t <- now E;
   do registry2 <- set_lastUpdated (kitId_of repoSource) t registry1;
   K registry2) w1 = (o, w') ->
  exists r2 w3, K r2 w3 = (o, w') /\ entered E repoSource r0 w1 r2 w3.
Proof.
  destruct (merge_entry E repoSource r0 w1) as (r2 & w3 & Hentry & Hfacts).
  intros H. exists r2, w3. split; [|done].
  apply bind_inv in Hentry as [(r1 & w2 & Hr1 & Hentry)|(e & _ & [=])].
  apply bind_inv in Hentry as [(t & w2' & Hnow & Hset)|(e & _ & [=])].
  apply bind_inv in H as [(? & ? & Hr1' & H)|(e & Hr1' & _)];
    rewrite Hr1 in Hr1'; [injection Hr1' as <- <-|done].
  apply bind_inv in H as [(? & ? & Hnow' & H)|(e & Hnow' & _)];
    rewrite Hnow in Hnow'; [injection Hnow' as <- <-|done].
  apply bind_inv in H as [(? & ? & Hset' & H)|(e & Hset' & _)];
    rewrite Hset in Hset'; [injection Hset' as <- <-|done].
  done.
Qed.

Lemma merge_ok E tempDir repoSource w w' :
  mergeAgentFolder E tempDir repoSource w = (Ok tt, w') ->
  exists r0 r', merged E repoSource w w' r0 r'.
Proof.
  unfold mergeAgentFolder. set (kitId := kitId_of repoSource).
  intros H.
  apply bind_inv in H as [(found & wa & Hfound & H)|(e & _ & [=])].
  assert (wa = w) as ->.
  { destruct (lookup_path tempDir [AGENT_FOLDER]); [by injection Hfound|].
    destruct (existsb _ _); by injection Hfound. }
  clear Hfound.
  apply bind_inv in H as [(ex & wb & Hex & H)|(e & _ & [=])].
  apply bind_inv in H as [([] & w1 & Hmk & H)|(e & _ & [=])].
  assert ((do ex <- existsSync []; when (negb ex) (mkdirSync E [])) w = (Ok tt, w1))
    as Hpro by (unfold bind; by rewrite Hex, Hmk).
  apply merge_prologue in Hpro as (Ht1 & Ho1 & Hp1 & Hload1 & pre & Hc1 & Hcp1 & Hnw1);
    [|done].
  clear Hex Hmk wb ex.
  apply bind_inv in H as [(loaded & wc & Hload & H)|(e & _ & [=])].
  pose proof (loadRegistry_world _ _ _ _ Hload) as ->.
  apply bind_inv in H as [(r0 & wc & Hdoc & H)|(e & _ & [=])].
  destruct loaded as [r0'|]; [|done]. injection Hdoc as -> <-.
  assert (loads E w r0) as Hloads.
  { unfold loads. by rewrite <- Hload1, Hload. }
  apply merge_entry_inv in H
    as (r2 & w3 & H & Hfiles2 & Hoth2 & Hd3 & Hc3 & Ho3 & Ht3 & Hp3 & Hno2 & Hyes2).
  fold kitId in Hoth2, Hp3, Hno2, Hyes2.
  destruct (copyRecursive E found.2 kitId found.1 [] "" _) as [[[]|e] s] eqn:Hcopy;
    [|done].
  apply saveRegistry_inv in H as [Hw' Hsaved]; [|done].
  change "" with (rel_of []) in Hcopy.
  apply copyRecursive_advances in Hcopy as [new Hadv].
  destruct Hadv as (Hc & Hnw & Ht & Ho & Hp & Hk & Hkit & Hown & Hkeep).
  cbn [wld registry] in Hc, Ht, Ho, Hp, Hk, Hkit, Hown, Hkeep.
  assert (calls w' = (WriteFile [REGISTRY_FILE] :: new ++ pre) ++ calls w) as Hcalls.
  { rewrite Hw'. simpl. rewrite Hc, Hc3, Hc1. by rewrite <- app_assoc. }
  assert (forall P, copied_by w w' P <-> P ∈ copied_paths new) as Hcopied.
  { intros P. rewrite (copied_by_iff _ _ _ Hcalls).
    change (WriteFile [REGISTRY_FILE] :: new ++ pre)
      with ([WriteFile [REGISTRY_FILE]] ++ new ++ pre).
    rewrite !copied_paths_app, Hcp1, app_nil_r. done. }
  assert (ticks w' = ticks (wld s)) as Htw by (by rewrite Hw').
  assert (forall P, takes r2 P <-> takes r0 P) as Htakes
    by (intros P; unfold takes; by rewrite Hfiles2).
  assert (enters w r0 kitId <-> enters w1 r0 kitId) as Henters.
  { unfold enters, inherits. by rewrite Hp1. }
  exists r0, (registry s). split.
  - done.
  - done.
  - exists (new ++ pre). split; [done|]. by apply Forall_app.
  - rewrite Htw. lia.
  - rewrite Hw'. simpl. congruence.
  - intros k Hk'. rewrite Hk by done. by apply Hoth2.
  - intros (K2 & HK2 & HfilesK & Hcase)%Henters%Hyes2.
    rewrite HK2 in Hkit. destruct Hkit as (extra & HKb & Hnd & Hin).
    eexists. split; [exact HKb|]. simpl. fold kitId. split; [|split; [|split]].
    + destruct (Registry.kits r0 !! kitId);
        destruct Hcase as (-> & -> & -> & Htk); by rewrite Ht1.
    + exists extra. by rewrite HfilesK.
    + by rewrite <- HfilesK.
    + intros P. by rewrite Hin, Hcopied, HfilesK.
  - intros Hno. rewrite Hno2 in Hkit; [done|].
    intros He. apply Hno. by apply Henters.
  - rewrite Hw'. cbn [proto_lastUpdated]. rewrite Hp, Hp3, Hp1, Ht1. done.
  - intros P HP%Hcopied HT%Htakes. destruct (Hown P HP HT) as (i & Hi & Hfile).
    exists i. split; [lia|done].
  - intros P HP. rewrite Hkeep; [by rewrite Hfiles2|].
    rewrite <- Hcopied, Htakes. done.
Qed.

Lemma merged_reload E repoSource w w' r0 r' :
  merged E repoSource w w' r0 r' -> stored w' r'.
Proof. intros H. apply stored_saved, H. Qed.
(** ** C2: the last kit to write a path owns it *)

(** C2 (the code departs from the claim).  Two kits with different
    identifiers are merged one after the other and both copy the file
    [__proto__].  The ownership map is a plain object: the assignment of its
    entry [__proto__] goes to the setter that every object inherits, no
    property is made, and the registry that is saved names no owner for the
    path, not the second kit.  Both kits list the path, and the path
    [rules/style.md] that both copied as well is owned by the second. *)
Theorem proto_path_has_no_owner :
  kitId_of "github:u/a" <> kitId_of "github:u/b"
  /\ mergeAgentFolder permissive proto_kit "github:u/a" fresh = (Ok tt, after_proto_a)
  /\ mergeAgentFolder permissive proto_kit "github:u/b" after_proto_a
     = (Ok tt, after_proto_b)
  /\ copied_by fresh after_proto_a "__proto__"
  /\ copied_by after_proto_a after_proto_b "__proto__"
  /\ stored after_proto_b (saved_registry after_proto_b)
  /\ Registry.files (saved_registry after_proto_b) !! "__proto__" = None
  /\ Registry.files (saved_registry after_proto_b) !! "rules/style.md"
     = Some (Owner.mk "github_u_b" "T7")
  /\ kit_files (saved_registry after_proto_b) "github_u_a"
     = ["__proto__"; "rules/style.md"]
  /\ kit_files (saved_registry after_proto_b) "github_u_b"
     = ["__proto__"; "rules/style.md"].
Proof.
  split_and!; try (vm_compute; reflexivity).
  - vm_compute. discriminate.
  - exists (calls after_proto_a). split; [vm_compute; reflexivity|].
    vm_compute. in_list.
  - exists [WriteFile [REGISTRY_FILE]; CopyFile ["rules"; "style.md"];
            CopyFile ["__proto__"]].
    split; [vm_compute; reflexivity|].
    vm_compute. in_list.
Qed.

(** X24.  Where the path is not [__proto__] and [registry.kits] inherits
    nothing under the two kit identifiers: when a merge for kit A and then a merge
    for another kit B both copy the relative path [P], the registry saved by
    the second merge names B, and B alone, as the owner of [P], both kits
    list [P] among their files, and nothing was printed about it. *)
Theorem last_writer_owns EA EB kitA kitB srcA srcB w0 w1 w2 P :
  kitId_of srcA <> kitId_of srcB ->
  inherits w0 (kitId_of srcA) = false ->
  inherits w0 (kitId_of srcB) = false ->
  P <> "__proto__" ->
  mergeAgentFolder EA kitA srcA w0 = (Ok tt, w1) ->
  mergeAgentFolder EB kitB srcB w1 = (Ok tt, w2) ->
  copied_by w0 w1 P ->
  copied_by w1 w2 P ->
  exists r t,
    stored w2 r
    /\ Registry.files r !! P = Some (Owner.mk (kitId_of srcB) t)
    /\ P ∈ kit_files r (kitId_of srcA)
    /\ P ∈ kit_files r (kitId_of srcB)
    /\ console w2 = console w0.
Proof.
  intros Hne HinhA HinhB HP H1 H2 Hc1 Hc2.
  apply merge_ok in H1 as (r0 & r1 & M1). apply merge_ok in H2 as (r1' & r2 & M2).
  assert (r1' = r1) as ->
    by (eapply stored_loads; [by eapply merged_reload|apply M2]).
  assert (proto_lastUpdated w1 = proto_lastUpdated w0) as Hproto.
  { rewrite (merged_proto _ _ _ _ _ _ M1). rewrite bool_decide_eq_false_2; [done|].
    intros [Hk _]. rewrite Hk in HinhA. by vm_compute in HinhA. }
  assert (enters w0 r0 (kitId_of srcA)) as HeA by (by right).
  assert (enters w1 r1 (kitId_of srcB)) as HeB.
  { right. unfold inherits in *. by rewrite Hproto. }
  destruct (merged_owner _ _ _ _ _ _ M2 P Hc2) as (i & _ & Hown); [by left|].
  exists r2, (clock EB i). split; [by eapply merged_reload|]. split; [done|].
  split; [|split].
  - unfold kit_files. rewrite (merged_others _ _ _ _ _ _ M2) by done.
    destruct (merged_kit _ _ _ _ _ _ M1 HeA) as (K1 & HK1 & _ & _ & _ & Hin).
    rewrite HK1. apply Hin. by right.
  - unfold kit_files.
    destruct (merged_kit _ _ _ _ _ _ M2 HeB) as (K2 & HK2 & _ & _ & _ & Hin).
    rewrite HK2. apply Hin. by right.
  - rewrite (merged_console _ _ _ _ _ _ M2). apply M1.
Qed.

Lemma last_writer_owns_witness :
  exists r t,
    stored after_second r
    /\ Registry.files r !! "rules/style.md" = Some (Owner.mk "github_u_b" t)
    /\ "rules/style.md" ∈ kit_files r "github_u_a"
    /\ "rules/style.md" ∈ kit_files r "github_u_b"
    /\ console after_second = console fresh.
Proof.
  apply (last_writer_owns permissive permissive sample_kit other_kit
           "github:u/a" "github:u/b" fresh after_first after_second "rules/style.md").
  - vm_compute. discriminate.
  - vm_compute. reflexivity.
  - vm_compute. reflexivity.
  - discriminate.
  - vm_compute. reflexivity.
  - vm_compute. reflexivity.
  - exists (calls after_first). split; [vm_compute; reflexivity|].
    vm_compute. in_list.
  - exists [WriteFile [REGISTRY_FILE]; CopyFile ["rules"; "style.md"]].
    split; [vm_compute; reflexivity|].
    vm_compute. in_list.
Defined.

(** ** C7: no path is listed twice *)

Lemma merged_distinct E repoSource w w' r0 r' :
  merged E repoSource w w' r0 r' -> distinct_files r0 -> distinct_files r'.
Proof.
  intros M Hd k. destruct (decide (k = kitId_of repoSource)) as [->|Hk].
  - destruct (Registry.kits r' !! kitId_of repoSource) as [K'|] eqn:HK'.
    + assert (enters w r0 (kitId_of repoSource)) as He.
      { destruct (Registry.kits r0 !! kitId_of repoSource) eqn:HK0; [left; eauto|].
        destruct (inherits w (kitId_of repoSource)) eqn:Hinh; [|by right].
        rewrite (merged_no_kit _ _ _ _ _ _ M) in HK'; [done|].
        intros [[? Hsome]|Hfalse]; congruence. }
      destruct (merged_kit _ _ _ _ _ _ M He) as (K'' & HK'' & _ & _ & Hnd & _).
      unfold kit_files at 1. rewrite HK''. apply Hnd, Hd.
    + unfold kit_files. rewrite HK'. apply NoDup_nil_2.
  - unfold kit_files. rewrite (merged_others _ _ _ _ _ _ M) by done. apply Hd.
Qed.

(** C7.  However many merges are run one after the other (for the same kit
    or for several), a kit's list of files that had no duplicate before has
    none afterwards: a path that is copied again is not listed again. *)
Theorem files_listed_once runs w w' r0 :
  stored w r0 ->
  distinct_files r0 ->
  merges runs w = (Ok tt, w') ->
  exists r', stored w' r' /\ distinct_files r'.
Proof.
  revert w r0. induction runs as [|[[E tempDir] repoSource] rest IH]; intros w r0 Hst Hd.
  - intros [= <-]. eauto.
  - simpl. intros H.
    apply bind_inv in H as [([] & w1 & Hmerge & Hrest)|(e & _ & [=])].
    apply merge_ok in Hmerge as (r0' & r1 & M).
    assert (r0' = r0) as -> by (eapply stored_loads; [done|apply M]).
    eapply IH; [by eapply merged_reload|by eapply merged_distinct|done].
Qed.

Lemma files_listed_once_witness :
  exists r',
    stored (snd (merges repeated_runs fresh)) r' /\ distinct_files r'.
Proof.
  apply (files_listed_once repeated_runs fresh _ Registry.empty).
  - apply stored_absent. reflexivity.
  - intros k. unfold kit_files, Registry.empty, Registry.kits.
    rewrite lookup_empty. apply NoDup_nil_2.
  - vm_compute. reflexivity.
Defined.
(** ** C6: copy failures are skipped, successful copies are recorded *)

(** C6 (the code departs from the claim).  The copy of the file [__proto__]
    succeeds and the path is listed for the kit, but the ownership map gets
    no entry for it: the assignment goes to the setter that the map, a plain
    object, inherits.  And where the kit identifier is itself a name that
    [registry.kits] inherits, as [__proto__] is, no entry is made for the
    kit, the look-up of its list of files raises inside the [try] block, and
    the paths copied are listed nowhere. *)
Theorem proto_copy_not_recorded :
  mergeAgentFolder permissive proto_kit "github:u/a" fresh = (Ok tt, after_proto_a)
  /\ copied_by fresh after_proto_a "__proto__"
  /\ at_path (disk after_proto_a) ["__proto__"] = Some (File (Text "p"))
  /\ stored after_proto_a (saved_registry after_proto_a)
  /\ Registry.files (saved_registry after_proto_a) !! "__proto__" = None
  /\ kit_files (saved_registry after_proto_a) "github_u_a"
     = ["__proto__"; "rules/style.md"]
  /\ mergeAgentFolder permissive sample_kit "--proto--" fresh = (Ok tt, after_dashes)
  /\ kitId_of "--proto--" = "__proto__"
  /\ copied_by fresh after_dashes "rules/style.md"
  /\ stored after_dashes (saved_registry after_dashes)
  /\ Registry.kits (saved_registry after_dashes) !! "__proto__" = None
  /\ Registry.files (saved_registry after_dashes) !! "rules/style.md"
     = Some (Owner.mk "__proto__" "T1").
Proof.
  split_and!; try (vm_compute; reflexivity).
  - exists (calls after_proto_a). split; [vm_compute; reflexivity|].
    vm_compute. in_list.
  - exists (calls after_dashes). split; [vm_compute; reflexivity|].
    vm_compute. in_list.
Qed.

(** X25.  A file entry never ends the loop of [copyRecursive]: the entries after
    it are processed from the state it leaves, which is the state before it
    when the copy failed, and the state that [track] leaves, returned or
    raised, when it succeeded.  And over a merge that returns, a relative path whose copy
    succeeded is listed for the kit, where the merge works on an entry of
    the kit, and is owned by the kit with a time read during the merge,
    where the ownership map takes the path, whether or not a file was there
    before; a path whose copy did not succeed keeps the ownership and the
    listing it had. *)
Theorem copy_failures_skipped_copies_recorded :
  (forall E isRootSync kitId name c rest dest rel s,
     skipped isRootSync rel name = false ->
     exists s1,
       copyRecursive E isRootSync kitId (Dir ((name, File c) :: rest)) dest rel s
       = copyRecursive E isRootSync kitId (Dir rest) dest rel s1
       /\ (forall e w1,
             copyFileSync E c (dest ++ [name]) (wld s) = (Throw e, w1) -> s1 = s)
       /\ (forall w1,
             copyFileSync E c (dest ++ [name]) (wld s) = (Ok tt, w1) ->
             s1 = snd (track E kitId (path_join rel name) (mkM (registry s) w1))))
  /\ (forall E tempDir repoSource w w',
        mergeAgentFolder E tempDir repoSource w = (Ok tt, w') ->
        exists r0 r',
          loads E w r0 /\ stored w' r'
          /\ forall P,
               (copied_by w w' P ->
                  (enters w r0 (kitId_of repoSource) ->
                   P ∈ kit_files r' (kitId_of repoSource))
                  /\ (takes r0 P ->
                      exists i, ticks w <= i < ticks w'
                                /\ Registry.files r' !! P
                                   = Some (Owner.mk (kitId_of repoSource) (clock E i))))
               /\ (~ copied_by w w' P ->
                     Registry.files r' !! P = Registry.files r0 !! P
                     /\ (P ∈ kit_files r' (kitId_of repoSource)
                         <-> P ∈ kit_files r0 (kitId_of repoSource)))).
Proof.
  split.
  - intros E isRootSync kitId name c rest dest rel s Hskip.
    rewrite !copyRecursive_dir. cbn [copyEntries]. rewrite Hskip.
    destruct (copy_file_step E kitId c (dest ++ [name]) (path_join rel name) s)
      as (s1 & Hstep & Hcase).
    exists s1. unfold bind at 1. rewrite Hstep. split; [done|].
    destruct Hcase as [(e & Hcopy & ->)|(d & Hcopy & ->)]; rewrite Hcopy.
    + split; [done|]. by intros w1 [=].
    + split; [by intros e w1 [=]|]. intros w1 [= <-].
      destruct (track_tracked E kitId (path_join rel name) (registry s)
                  (commit d (CopyFile (dest ++ [name])) (wld s))) as [o ->].
      done.
  - intros E tempDir repoSource w w' Hmerge.
    apply merge_ok in Hmerge as (r0 & r' & M). exists r0, r'.
    split; [apply M|]. split; [by eapply merged_reload|].
    intros P. split.
    + intros Hc. split; [|by apply (merged_owner _ _ _ _ _ _ M)].
      intros He. destruct (merged_kit _ _ _ _ _ _ M He) as (K' & HK' & _ & _ & _ & Hin).
      unfold kit_files at 1. rewrite HK'. apply Hin. by right.
    + intros Hn. split; [apply (merged_kept _ _ _ _ _ _ M); by left|].
      destruct (Registry.kits r0 !! kitId_of repoSource) as [K0|] eqn:HK0.
      * destruct (merged_kit _ _ _ _ _ _ M) as (K' & HK' & _ & _ & _ & Hin);
          [left; rewrite HK0; eauto|].
        unfold kit_files at 1. rewrite HK', Hin. tauto.
      * destruct (inherits w (kitId_of repoSource)) eqn:Hinh.
        -- unfold kit_files. rewrite HK0.
           rewrite (merged_no_kit _ _ _ _ _ _ M); [done|].
           intros [[? Hsome]|Hfalse]; congruence.
        -- destruct (merged_kit _ _ _ _ _ _ M) as (K' & HK' & _ & _ & _ & Hin);
             [by right|].
           unfold kit_files at 1. rewrite HK', Hin. tauto.
Qed.

Lemma copy_failures_skipped_copies_recorded_witness :
  (copyRecursive locked false "k" (Dir [("style.md", File (Text "be brief"))])
                 ["rules"] "rules" (mkM Registry.empty (on_disk kit_rules))
   = (Ok tt, mkM Registry.empty (on_disk kit_rules)))
  /\ exists r',
       stored after_first r'
       /\ "rules/style.md" ∈ kit_files r' "github_u_a"
       /\ Registry.files r' !! "README.md" = None.
Proof.
  destruct copy_failures_skipped_copies_recorded as [Hloop Hmerge]. split.
  - destruct (Hloop locked false "k" "style.md" (Text "be brief") [] ["rules"] "rules"
                (mkM Registry.empty (on_disk kit_rules)) eq_refl)
      as (s1 & Hrun & Hfail & _).
    rewrite Hrun. rewrite (Hfail (Errno EACCES) (on_disk kit_rules) eq_refl).
    reflexivity.
  - assert (mergeAgentFolder permissive sample_kit "github:u/a" fresh
            = (Ok tt, after_first)) as Hrun by (vm_compute; reflexivity).
    destruct (Hmerge permissive sample_kit "github:u/a" fresh after_first Hrun)
      as (r0 & r' & Hr0 & Hr' & HP).
    assert (r0 = Registry.empty) as ->.
    { eapply loads_inj; [exact Hr0|]. vm_compute. reflexivity. }
    exists r'. split; [exact Hr'|]. split.
    + destruct (HP "rules/style.md") as [Hcopied _].
      destruct Hcopied as [Hlisted _].
      * exists (calls after_first). split; [vm_compute; reflexivity|].
        vm_compute. in_list.
      * apply Hlisted. right. vm_compute. reflexivity.
    + destruct (HP "README.md") as [_ Hkept].
      destruct Hkept as [-> _].
      * intros (new & Hnew & Hin).
        assert (new = calls after_first) as ->.
        { change (calls fresh) with (@nil syscall) in Hnew.
          rewrite app_nil_r in Hnew. by rewrite Hnew. }
        vm_compute in Hin.
        repeat (apply elem_of_cons in Hin as [[=]|Hin]).
        by apply elem_of_nil in Hin.
      * apply lookup_empty.
Defined.

(** ** C10: sources that differ in their separators share one entry *)

Lemma kitId_of_alias s1 s2 :
  differ_only_nonalnum s1 s2 <-> kitId_of s1 = kitId_of s2.
Proof.
  unfold kitId_of. revert s2. induction s1 as [|a s1 IH]; intros [|b s2]; simpl;
    try done.
  rewrite IH. split.
  - intros [[->|[Ha Hb]] ->]; [done|]. by rewrite Ha, Hb.
  - intros [= Hab Hs]. split; [|done].
    destruct (is_alnum a) eqn:Ha, (is_alnum b) eqn:Hb; subst; auto; by inversion Ha.
Qed.

(** C10 (the code departs from the claim).  The sources [--proto--] and
    [__proto__] differ in characters that are not alphanumeric only, and
    both have the kit identifier [__proto__].  The test that decides whether
    the kit is new reads [registry.kits] under that name and finds what every
    object inherits there: neither merge makes an entry, so that there is
    none for the second to reuse; the time of the update is assigned to
    [Object.prototype], and the paths copied are listed for no kit, though
    the ownership map names the identifier. *)
Theorem inherited_kit_id_has_no_entry :
  differ_only_nonalnum "--proto--" "__proto__"
  /\ kitId_of "--proto--" = "__proto__"
  /\ kitId_of "__proto__" = "__proto__"
  /\ mergeAgentFolder permissive sample_kit "--proto--" fresh = (Ok tt, after_dashes)
  /\ mergeAgentFolder permissive other_kit "__proto__" after_dashes
     = (Ok tt, after_underscores)
  /\ stored after_dashes (saved_registry after_dashes)
  /\ stored after_underscores (saved_registry after_underscores)
  /\ Registry.kits (saved_registry after_dashes) !! "__proto__" = None
  /\ Registry.kits (saved_registry after_underscores) !! "__proto__" = None
  /\ Registry.files (saved_registry after_underscores) !! "rules/style.md"
     = Some (Owner.mk "__proto__" "T4")
  /\ proto_lastUpdated after_dashes = Some "T0"
  /\ proto_lastUpdated after_underscores = Some "T3".
Proof.
  split_and!; try (vm_compute; reflexivity).
  simpl. repeat split; auto.
Qed.

(** X26.  Two sources that differ only in characters that are not
    alphanumeric have the same kit identifier.  Where [registry.kits] inherits nothing
    under it: when the first is merged into a registry that has no entry
    under it and the second is merged next, the second merge finds the entry
    of the first: the source and the time of installation stay those of the
    first merge, the time of the last update is the first time read by the
    second merge, and the list of files is the list of the first merge
    followed by the paths the second copied that were not listed yet. *)
Theorem aliased_sources_share_entry E1 E2 kit1 kit2 s1 s2 w0 w1 w2 r0 :
  differ_only_nonalnum s1 s2 ->
  inherits w0 (kitId_of s1) = false ->
  stored w0 r0 ->
  Registry.kits r0 !! kitId_of s1 = None ->
  mergeAgentFolder E1 kit1 s1 w0 = (Ok tt, w1) ->
  mergeAgentFolder E2 kit2 s2 w1 = (Ok tt, w2) ->
  kitId_of s1 = kitId_of s2
  /\ exists r1 r2 K1 K2,
       stored w1 r1 /\ stored w2 r2
       /\ Registry.kits r1 !! kitId_of s1 = Some K1
       /\ Registry.kits r2 !! kitId_of s2 = Some K2
       /\ Kit.source K1 = s1 /\ Kit.source K2 = s1
       /\ Kit.installedAt K1 = clock E1 (ticks w0)
       /\ Kit.installedAt K2 = clock E1 (ticks w0)
       /\ Kit.lastUpdated K2 = Some (clock E2 (ticks w1))
       /\ (exists extra, Kit.files K2 = Kit.files K1 ++ extra)
       /\ (forall P, P ∈ Kit.files K2 <-> P ∈ Kit.files K1 \/ copied_by w1 w2 P).
Proof.
  intros Halias%kitId_of_alias Hinh Hst Hnone H1 H2. split; [done|].
  apply merge_ok in H1 as (r0' & r1 & M1). apply merge_ok in H2 as (r1' & r2 & M2).
  assert (r0' = r0) as -> by (eapply stored_loads; [done|apply M1]).
  assert (r1' = r1) as ->
    by (eapply stored_loads; [by eapply merged_reload|apply M2]).
  destruct (merged_kit _ _ _ _ _ _ M1) as (K1 & HK1 & Hcase1 & _); [by right|].
  rewrite Hnone in Hcase1. destruct Hcase1 as (Hs1 & Hi1 & _).
  destruct (merged_kit _ _ _ _ _ _ M2) as (K2 & HK2 & Hcase2 & Hext & _ & Hin).
  { left. rewrite <- Halias, HK1. eauto. }
  unfold kit_files in Hext, Hin. rewrite <- Halias, HK1 in Hcase2, Hext, Hin.
  destruct Hcase2 as (Hs2 & Hi2 & Hu2).
  exists r1, r2, K1, K2. rewrite <- Halias at 1.
  repeat split; try done; try congruence; try (by eapply merged_reload); apply Hin.
Qed.

Lemma aliased_sources_share_entry_witness :
  kitId_of "github:u/a" = kitId_of "github/u:a"
  /\ exists r1 r2 K1 K2,
       stored after_first r1 /\ stored after_alias r2
       /\ Registry.kits r1 !! kitId_of "github:u/a" = Some K1
       /\ Registry.kits r2 !! kitId_of "github/u:a" = Some K2
       /\ Kit.source K1 = "github:u/a" /\ Kit.source K2 = "github:u/a"
       /\ Kit.installedAt K1 = clock permissive (ticks fresh)
       /\ Kit.installedAt K2 = clock permissive (ticks fresh)
       /\ Kit.lastUpdated K2 = Some (clock permissive (ticks after_first))
       /\ (exists extra, Kit.files K2 = Kit.files K1 ++ extra)
       /\ (forall P, P ∈ Kit.files K2
                     <-> P ∈ Kit.files K1 \/ copied_by after_first after_alias P).
Proof.
  apply (aliased_sources_share_entry permissive permissive sample_kit other_kit
           "github:u/a" "github/u:a" fresh after_first after_alias Registry.empty).
  - simpl. repeat split; auto.
  - vm_compute. reflexivity.
  - vm_compute. reflexivity.
  - apply lookup_empty.
  - vm_compute. reflexivity.
  - vm_compute. reflexivity.
Defined.
(** ** C1: who writes the registry file *)

Lemma saves_app cs1 cs2 : saves (cs1 ++ cs2) = saves cs1 + saves cs2.
Proof. induction cs1 as [|c cs1 IH]; simpl; [done|]. rewrite IH. lia. Qed.

Lemma saves_none cs :
  Forall (fun c => forall p, c <> WriteFile p) cs -> saves cs = 0.
Proof.
  induction 1 as [|c cs Hc _ IH]; simpl; [done|].
  rewrite IH. destruct c; simpl; try done. by destruct (Hc p).
Qed.

Lemma prologue_effect E w o w1 :
  (do ex <- existsSync []; when (negb ex) (mkdirSync E [])) w = (o, w1) ->
  console w1 = console w /\ saves (calls w1) = saves (calls w).
Proof.
  unfold bind, existsSync. cbn [when negb ret].
  destruct (bool_decide _); cbn [when negb ret].
  - by intros [= <- <-].
  - intros [(d & _ & ->)|(e & _ & ->)]%mkdirSync_inv; done.
Qed.

(** A merge prints nothing, and it saves the registry once when it returns
    and not at all when it throws. *)
Lemma merge_effect E tempDir repoSource w o w' :
  mergeAgentFolder E tempDir repoSource w = (o, w') ->
  console w' = console w
  /\ saves (calls w')
     = saves (calls w) + match o with Ok _ => 1 | Throw _ => 0 end.
Proof.
  unfold mergeAgentFolder. set (kitId := kitId_of repoSource). intros H.
  apply bind_inv in H as [(found & wa & Hfound & H)|(e & Hfound & ->)].
  2:{ destruct (lookup_path tempDir [AGENT_FOLDER]); [done|].
      destruct (existsb _ _); [done|]. injection Hfound as _ <-. split; [done|lia]. }
  assert (wa = w) as ->.
  { destruct (lookup_path tempDir [AGENT_FOLDER]); [by injection Hfound|].
    destruct (existsb _ _); by injection Hfound. }
  clear Hfound.
  assert (forall (k : unit -> M world unit),
    (do ex <- existsSync []; run when (negb ex) (mkdirSync E []); k tt) w
    = bind (do ex <- existsSync []; when (negb ex) (mkdirSync E [])) k w) as Hassoc.
  { intros k. unfold bind. destruct (existsSync [] w) as [[ex|e] wb]; [|done].
    by destruct (when (negb ex) (mkdirSync E []) wb) as [[[]|e] wc]. }
  rewrite (Hassoc (fun _ => _)) in H. clear Hassoc.
  apply bind_inv in H as [([] & w1 & Hpro & H)|(e & Hpro & ->)].
  2:{ apply prologue_effect in Hpro as [-> ->]. split; [done|lia]. }
  apply prologue_effect in Hpro as [Ho1 Hs1].
  apply bind_inv in H as [(loaded & wc & Hload & H)|(e & Hload & ->)].
  2:{ apply loadRegistry_world in Hload as ->. split; [done|lia]. }
  apply loadRegistry_world in Hload as ->.
  apply bind_inv in H as [(r0 & wc & Hdoc & H)|(e & Hdoc & ->)].
  2:{ destruct loaded; [done|]. injection Hdoc as _ <-. split; [done|lia]. }
  destruct loaded as [r0'|]; [|done]. injection Hdoc as -> <-.
  apply merge_entry_inv in H as (r2 & w3 & H & _ & _ & _ & Hc2 & Ho2 & _).
  destruct (copyRecursive E found.2 kitId found.1 [] "" _) as [oc s] eqn:Hcopy.
  change "" with (rel_of []) in Hcopy.
  apply copyRecursive_advances in Hcopy as [new Hadv].
  destruct Hadv as (Hc & Hnw & _ & Ho & _). simpl in Hc, Ho.
  assert (saves (calls (wld s)) = saves (calls w)) as Hs.
  { rewrite Hc, saves_app, (saves_none _ Hnw), Hc2, Hs1. done. }
  assert (console (wld s) = console w) as Hout by congruence.
  destruct oc as [[]|e].
  - unfold saveRegistry, writeFileSync in H.
    apply put_file_inv in H as [(d & -> & ->)|(e & -> & ->)].
    + simpl. split; [done|]. rewrite Hs. lia.
    + split; [done|]. lia.
  - injection H as <- <-. split; [done|]. lia.
Qed.

Lemma sync_body_effect E giget source w0 o1 w1 :
  (do _stamp <- now E;
   do tmpDir <- match giget source with
                | Some d => ret d
                | None => throw FetchFailed
                end;
   run print (Merging source);
   run mergeAgentFolder E tmpDir source;
   print (Synced source)) w0 = (o1, w1) ->
  match o1 with
  | Ok _ =>
      saves (calls w1) = S (saves (calls w0))
      /\ synced (console w1) = S (synced (console w0))
  | Throw _ =>
      saves (calls w1) = saves (calls w0)
      /\ synced (console w1) = synced (console w0)
  end.
Proof.
  intros H.
  apply bind_inv in H as [(t & wa & Hnow & H)|(e & Hnow & ->)]; [|done].
  unfold now in Hnow. injection Hnow as _ <-.
  apply bind_inv in H as [(tmpDir & wb & Hget & H)|(e & Hget & ->)].
  2:{ destruct (giget source); [done|]. by injection Hget as _ <-. }
  assert (wb = mkWorld (disk w0) (S (ticks w0)) (calls w0) (console w0)
                       (proto_lastUpdated w0)) as ->.
  { destruct (giget source); [|done]. by injection Hget. }
  clear Hget.
  apply bind_inv in H as [([] & wc & Hpr & H)|(e & Hpr & ->)]; [|done].
  unfold print in Hpr. injection Hpr as <-.
  cbn [disk ticks calls console proto_lastUpdated] in H.
  apply bind_inv in H as [([] & wm & Hm & H)|(e & Hm & ->)];
    apply merge_effect in Hm as [Hout Hsv]; cbn [calls console] in Hout, Hsv.
  - unfold print in H. injection H as <- <-. cbn [calls console synced].
    rewrite Hout, Hsv. cbn [synced]. split; lia.
  - rewrite Hout, Hsv. cbn [synced]. split; lia.
Qed.

Lemma syncKits_effect E giget kitsToSync w o w' :
  syncKits E giget kitsToSync w = (o, w') ->
  o = Ok tt
  /\ saves (calls w') + synced (console w) = saves (calls w) + synced (console w').
Proof.
  revert w. induction kitsToSync as [|source rest IH]; intros w.
  - by intros [= <- <-].
  - cbn [syncKits]. intros H.
    apply bind_inv in H as [([] & wa & Hpr & H)|(e & Hpr & ->)]; [|done].
    unfold print in Hpr. injection Hpr as <-.
    apply bind_inv in H as [([] & wb & Htry & H)|(e & Htry & ->)].
    + apply IH in H as [-> H]. split; [done|].
      unfold try_catch in Htry.
      destruct ((do _stamp <- now E; _) _) as [[[]|e] w1] eqn:Hbody;
        apply sync_body_effect in Hbody as [Hs Hy]; cbn [calls console synced] in Hs, Hy.
      * injection Htry as <-. lia.
      * unfold print in Htry. injection Htry as <-.
        cbn [calls console synced] in H. lia.
    + unfold try_catch in Htry.
      destruct ((do _stamp <- now E; _) _) as [[[]|e1] w1]; [done|].
      unfold print in Htry. done.
Qed.

Lemma enforce_effect E asset quiet w o w' :
  enforceGoldenRules E asset quiet w = (o, w') ->
  o = Ok tt /\ saves (calls w') = saves (calls w)
  /\ synced (console w') = synced (console w).
Proof.
  unfold enforceGoldenRules, try_catch.
  assert (forall w0 o0 w1, log GoldenRulesLogged quiet w0 = (o0, w1) ->
            o0 = Ok tt /\ calls w1 = calls w0 /\ synced (console w1) = synced (console w0))
    as Hlog1.
  { intros w0 o0 w1. unfold log, when, print, ret.
    destruct quiet; simpl; by intros [= <- <-]. }
  assert (forall e w0 o0 w1, log (GoldenRulesError e) quiet w0 = (o0, w1) ->
            o0 = Ok tt /\ calls w1 = calls w0 /\ synced (console w1) = synced (console w0))
    as Hlog2.
  { intros e w0 o0 w1. unfold log, when, print, ret.
    destruct quiet; simpl; by intros [= <- <-]. }
  destruct ((do ex <- existsSync ["rules"]; _) w) as [ob wb] eqn:Hbody.
  assert (saves (calls wb) = saves (calls w)
          /\ synced (console wb) = synced (console w)
          /\ (exists a, ob = Ok a) \/ (saves (calls wb) = saves (calls w)
          /\ synced (console wb) = synced (console w)) /\ exists e, ob = Throw e) as Hb.
  { unfold bind at 1, existsSync in Hbody. cbn [when negb ret] in Hbody.
    unfold bind at 1 in Hbody.
    destruct (when _ _ w) as [[[]|e] w1] eqn:Hmk.
    - assert (saves (calls w1) = saves (calls w) /\ console w1 = console w) as [Hs1 Ho1].
      { revert Hmk. destruct (bool_decide _); cbn [when negb ret].
        - by intros [= <-].
        - intros [(d & _ & ->)|(e & [=] & _)]%mkdirSync_inv. done. }
      destruct asset as [c|].
      + unfold bind at 1 in Hbody.
        destruct (copyFileSync E c _ w1) as [oc w2] eqn:Hcopy.
        apply put_file_inv in Hcopy as [(d & -> & ->)|(e & -> & ->)].
        * apply Hlog1 in Hbody as (-> & Hc & Ho). left. simpl in *.
          rewrite Hc, Ho, Ho1. eauto.
        * injection Hbody as <- <-. right. rewrite Ho1. eauto.
      + injection Hbody as <- <-. left. rewrite Ho1. eauto.
    - injection Hbody as <- <-. right.
      revert Hmk. destruct (bool_decide _); cbn [when negb ret]; [done|].
      intros [(d & [=] & _)|(e' & _ & ->)]%mkdirSync_inv. eauto. }
  destruct Hb as [(Hs & Ho & a & ->)|((Hs & Ho) & e & ->)].
  - intros [= <- <-]. by destruct a.
  - intros (-> & Hc & Ho')%Hlog2. rewrite Hc, Ho'. done.
Qed.

Lemma index_effect E quiet w o w' :
  generateSkillsIndex E quiet w = (o, w') ->
  saves (calls w') = saves (calls w) /\ synced (console w') = synced (console w).
Proof.
  unfold generateSkillsIndex, bind, existsSync.
  assert (forall m w0 o0 w1, log m quiet w0 = (o0, w1) ->
            (forall src, m <> Synced src) ->
            calls w1 = calls w0 /\ synced (console w1) = synced (console w0)) as Hlog.
  { intros m w0 o0 w1. unfold log, when, print, ret.
    destruct quiet; simpl; intros [= <- <-] Hm; [done|]. split; [done|].
    simpl. destruct m; try done. by destruct (Hm source). }
  destruct (bool_decide _); cbn [negb].
  - destruct (at_path (disk w) ["skills"]) as [sk|]; [|by intros [= <- <-]].
    destruct (processDir sk "skills" "" (mkScan [] None)) as [[[]|e] sc];
      [|by intros [= <- <-]].
    destruct (writeFileSync E [INDEX_FILE] (IndexJson (skills sc)) w)
      as [ow w1] eqn:Hw.
    apply put_file_inv in Hw as [(d & -> & ->)|(e & -> & ->)].
    + intros (Hc & Ho)%Hlog; [|done]. rewrite Hc, Ho. done.
    + by intros [= <- <-].
  - intros (Hc & Ho)%Hlog; [|done]. by rewrite Hc, Ho.
Qed.

(** C1, as the claim states it, fails: a merge into a directory that has no
    registry file yet returns with the registry file written. *)
Lemma merge_writes_registry_file :
  at_path (disk fresh) [REGISTRY_FILE] = None
  /\ mergeAgentFolder permissive sample_kit "github:u/a" fresh = (Ok tt, after_first)
  /\ WriteFile [REGISTRY_FILE] ∈ calls after_first
  /\ exists r, at_path (disk after_first) [REGISTRY_FILE] = Some (File (RegistryJson r)).
Proof.
  split; [reflexivity|]. split; [vm_compute; reflexivity|]. split.
  - vm_compute. in_list.
  - eexists. vm_compute. reflexivity.
Qed.

Lemma syncCommand_effect E giget asset repoSource all localMode w o w' :
  syncCommand E giget asset repoSource all localMode w = (o, w') ->
  saves (calls w') + synced (console w) = saves (calls w) + synced (console w').
Proof.
  assert (forall m w0 o0 w1, print m w0 = (o0, w1) ->
            (forall src, m <> Synced src) ->
            o0 = Ok tt /\ calls w1 = calls w0 /\ synced (console w1) = synced (console w0))
    as Hprint.
  { intros m w0 o0 w1. unfold print. intros [= <- <-] Hm. repeat split.
    simpl. destruct m; try done. by destruct (Hm source). }
  unfold syncCommand. intros H.
  apply bind_inv in H as [([] & w1 & Hp & H)|(e & Hp & ->)];
    apply Hprint in Hp as (? & Hc1 & Hy1); try done.
  apply bind_inv in H as [(kitsToSync & w2 & Hk & H)|(e & Hk & ->)].
  2:{ assert (calls w' = calls w1 /\ synced (console w') = synced (console w1))
        as [-> ->]; [|rewrite Hc1, Hy1; lia].
      destruct repoSource as [[|c s]|]; try done;
        (destruct all; [done|]);
        (apply bind_inv in Hk as [([] & wx & Hp & Hk)|(e' & Hp & _)];
         [unfold throw in Hk; injection Hk as _ <-;
          by apply Hprint in Hp as (_ & Hc & Hy)
         |by apply Hprint in Hp as ([=] & _)]). }
  assert (w2 = w1) as ->.
  { destruct repoSource as [[|c s]|]; try (by injection Hk);
      (destruct all; [by injection Hk|]);
      (apply bind_inv in Hk as [([] & wx & Hp & Hk)|(e' & Hp & [=])]; done). }
  clear Hk.
  apply bind_inv in H as [([] & w3 & Hsync & H)|(e & Hsync & ->)];
    apply syncKits_effect in Hsync as [? Hs3]; try done.
  apply bind_inv in H as [([] & w4 & Hp & H)|(e & Hp & ->)];
    apply Hprint in Hp as (? & Hc4 & Hy4); try done.
  apply bind_inv in H as [([] & w5 & Henf & H)|(e & Henf & ->)];
    apply enforce_effect in Henf as (? & Hc5 & Hy5); try done.
  apply bind_inv in H as [([] & w6 & Hp & H)|(e & Hp & ->)];
    apply Hprint in Hp as (? & Hc6 & Hy6); try done.
  apply bind_inv in H as [([] & w7 & Hp & H)|(e & Hp & ->)];
    apply Hprint in Hp as (? & Hc7 & Hy7); try done.
  apply bind_inv in H as [([] & w8 & Hidx & H)|(e & Hidx & ->)];
    apply index_effect in Hidx as (Hc8 & Hy8).
  2:{ rewrite Hc8, Hy8, Hc7, Hy7, Hc6, Hy6, Hc5, Hy5, Hc4, Hy4.
      rewrite Hc1, Hy1 in Hs3. lia. }
  apply bind_inv in H as [([] & w9 & Hp & H)|(e & Hp & ->)];
    apply Hprint in Hp as (? & Hc9 & Hy9); try done.
  apply Hprint in H as (? & Hc10 & Hy10); try done.
  rewrite Hc10, Hy10, Hc9, Hy9, Hc8, Hy8, Hc7, Hy7, Hc6, Hy6, Hc5, Hy5, Hc4, Hy4.
  rewrite Hc1, Hy1 in Hs3. lia.
Qed.

(** C1, amended.  A merge works on its own copy of the registry: it reads
    the registry file (an empty registry when there is none), updates the
    copy in memory, for its own kit and for the paths it copies, and, when
    it returns, has saved the copy with [saveRegistry] as its last call, so
    that the registry file holds it then (whatever the merge copied there
    before).  The sync command never saves
    the registry itself: over a whole sync [saveRegistry] goes through once
    for each source reported as synced, inside the merge of that source, and
    at no other point. *)
Theorem merge_saves_registry_itself :
  (forall E tempDir repoSource w w',
     mergeAgentFolder E tempDir repoSource w = (Ok tt, w') ->
     exists r0 r' rest,
       loads E w r0 /\ stored w' r'
       /\ at_path (disk w') [REGISTRY_FILE] = Some (File (RegistryJson r'))
       /\ calls w' = WriteFile [REGISTRY_FILE] :: rest
       /\ saves (calls w') = S (saves (calls w))
       /\ (forall k, k <> kitId_of repoSource ->
             Registry.kits r' !! k = Registry.kits r0 !! k)
       /\ (forall P, ~ copied_by w w' P ->
             Registry.files r' !! P = Registry.files r0 !! P))
  /\ (forall E giget asset repoSource all localMode w o w',
        syncCommand E giget asset repoSource all localMode w = (o, w') ->
        saves (calls w') + synced (console w)
        = saves (calls w) + synced (console w')).
Proof.
  split.
  - intros E tempDir repoSource w w' Hmerge.
    pose proof (merge_effect _ _ _ _ _ _ Hmerge) as [_ Hsaves].
    apply merge_ok in Hmerge as (r0 & r' & M).
    destruct (merged_calls _ _ _ _ _ _ M) as (new & Hcalls & _).
    exists r0, r', (new ++ calls w).
    split; [apply M|]. split; [by eapply merged_reload|].
    split; [apply M|]. split; [done|]. split; [rewrite Hsaves; lia|].
    split; [apply M|]. intros P HP. apply (merged_kept _ _ _ _ _ _ M). by left.
  - intros E giget asset repoSource all localMode w o w'. apply syncCommand_effect.
Qed.

Lemma merge_saves_registry_itself_witness :
  (exists r0 r' rest,
     loads permissive fresh r0 /\ stored after_first r'
     /\ at_path (disk after_first) [REGISTRY_FILE] = Some (File (RegistryJson r'))
     /\ calls after_first = WriteFile [REGISTRY_FILE] :: rest
     /\ saves (calls after_first) = S (saves (calls fresh))
     /\ (forall k, k <> kitId_of "github:u/a" ->
           Registry.kits r' !! k = Registry.kits r0 !! k)
     /\ (forall P, ~ copied_by fresh after_first P ->
           Registry.files r' !! P = Registry.files r0 !! P))
  /\ (exists r0 r' rest,
        loads permissive fresh r0 /\ stored after_shipping r'
        /\ at_path (disk after_shipping) [REGISTRY_FILE]
           = Some (File (RegistryJson r'))
        /\ calls after_shipping = WriteFile [REGISTRY_FILE] :: rest
        /\ saves (calls after_shipping) = S (saves (calls fresh))
        /\ (forall k, k <> kitId_of "github:u/s" ->
              Registry.kits r' !! k = Registry.kits r0 !! k)
        /\ (forall P, ~ copied_by fresh after_shipping P ->
              Registry.files r' !! P = Registry.files r0 !! P))
  /\ CopyFile [REGISTRY_FILE] ∈ calls after_shipping.
Proof.
  destruct merge_saves_registry_itself as [Hmerge _]. split; [|split].
  - apply (Hmerge permissive sample_kit "github:u/a" fresh after_first).
    vm_compute. reflexivity.
  - apply (Hmerge permissive shipping_kit "github:u/s" fresh after_shipping).
    vm_compute. reflexivity.
  - vm_compute. in_list.
Defined.

(** The course of a merge, whatever its outcome. *)
Lemma merge_inv E tempDir repoSource w o w' :
  mergeAgentFolder E tempDir repoSource w = (o, w') ->
  (lookup_path tempDir [AGENT_FOLDER] = None /\ o = Throw NoAgentFolder /\ w' = w)
  \/ exists sourceAgent isRootSync o1 w1,
       (lookup_path tempDir [AGENT_FOLDER] = Some sourceAgent /\ isRootSync = false
        \/ lookup_path tempDir [AGENT_FOLDER] = None
           /\ sourceAgent = tempDir /\ isRootSync = true)
       /\ (do ex <- existsSync []; when (negb ex) (mkdirSync E [])) w = (o1, w1)
       /\ match o1 with
          | Throw e => o = Throw e /\ w' = w1
          | Ok _ =>
              match fst (loadRegistry E w1) with
              | Throw e => o = Throw e /\ w' = w1
              | Ok NoKits => o = Throw TypeError /\ w' = w1
              | Ok (Document r0) =>
                  exists r2 w3 oc s,
                    entered E repoSource r0 w1 r2 w3
                    /\ copyRecursive E isRootSync (kitId_of repoSource) sourceAgent
                                     [] "" (mkM r2 w3) = (oc, s)
                    /\ match oc with
                       | Ok _ => saveRegistry E (registry s) (wld s) = (o, w')
                       | Throw e => o = Throw e /\ w' = wld s
                       end
              end
          end.
Proof.
  unfold mergeAgentFolder. intros H.
  apply bind_inv in H as [(found & wa & Hfound & H)|(e & Hfound & ->)].
  2:{ left. destruct (lookup_path tempDir [AGENT_FOLDER]); [done|].
      destruct (existsb _ _); [done|]. by injection Hfound as <- <-. }
  right. exists found.1, found.2.
  assert (wa = w
          /\ (lookup_path tempDir [AGENT_FOLDER] = Some found.1 /\ found.2 = false
              \/ lookup_path tempDir [AGENT_FOLDER] = None
                 /\ found.1 = tempDir /\ found.2 = true)) as [-> Hsrc].
  { destruct (lookup_path tempDir [AGENT_FOLDER]).
    - injection Hfound as <- <-. split; [done|]. by left.
    - destruct (existsb _ _); [|done]. injection Hfound as <- <-.
      split; [done|]. by right. }
  clear Hfound.
  assert (forall (k : unit -> M world unit),
    (do ex <- existsSync []; run when (negb ex) (mkdirSync E []); k tt) w
    = bind (do ex <- existsSync []; when (negb ex) (mkdirSync E [])) k w) as Hassoc.
  { intros k. unfold bind. destruct (existsSync [] w) as [[ex|e] wb]; [|done].
    by destruct (when (negb ex) (mkdirSync E []) wb) as [[[]|e] wc]. }
  rewrite (Hassoc (fun _ => _)) in H. clear Hassoc.
  apply bind_inv in H as [([] & w1 & Hpro & H)|(e & Hpro & ->)].
  2:{ exists (Throw e), w'. done. }
  exists (Ok tt), w1. split; [done|]. split; [done|].
  apply bind_inv in H as [(loaded & wc & Hload & H)|(e & Hload & ->)].
  2:{ pose proof (loadRegistry_world _ _ _ _ Hload) as ->. by rewrite Hload. }
  pose proof (loadRegistry_world _ _ _ _ Hload) as ->. rewrite Hload. cbn [fst].
  apply bind_inv in H as [(r0 & wc & Hdoc & H)|(e & Hdoc & ->)].
  2:{ destruct loaded; [done|]. by injection Hdoc as <- <-. }
  destruct loaded as [r0'|]; [|done]. injection Hdoc as -> <-.
  apply merge_entry_inv in H as (r2 & w3 & H & Hentered).
  destruct (copyRecursive E found.2 (kitId_of repoSource) found.1 [] "" (mkM r2 w3))
    as [oc s] eqn:Hcopy.
  exists r2, w3, oc, s. split; [done|]. split; [done|].
  destruct oc as [[]|e]; [done|]. by injection H as <- <-.
Qed.

(** * Further properties of the code *)

(** ** Registry store *)

(** X1.  What [saveRegistry] wrote is what [loadRegistry] reads back, and
    reading changes nothing. *)
Theorem registry_round_trip E r w w' :
  saveRegistry E r w = (Ok tt, w') -> loadRegistry E w' = (Ok (Document r), w').
Proof.
  intros Hsave. apply saveRegistry_inv in Hsave as [_ Hat]; [|done].
  apply stored_saved in Hat. specialize (Hat E). unfold loads in Hat.
  destruct (loadRegistry E w') as [o w''] eqn:Hload.
  apply loadRegistry_world in Hload as ->. simpl in Hat. by rewrite Hat.
Qed.

Lemma registry_round_trip_witness :
  loadRegistry permissive
    (snd (saveRegistry permissive Registry.empty (on_disk stale_index)))
  = (Ok (Document Registry.empty),
     snd (saveRegistry permissive Registry.empty (on_disk stale_index))).
Proof.
  apply (registry_round_trip permissive Registry.empty (on_disk stale_index)).
  vm_compute. reflexivity.
Defined.

(** X2.  With no registry file in the directory (or no directory at all)
    [loadRegistry] returns the empty registry and leaves the world as it
    is. *)
Theorem loadRegistry_fails_open E w :
  at_path (disk w) [REGISTRY_FILE] = None ->
  loadRegistry E w = (Ok (Document Registry.empty), w).
Proof.
  intros Hnone. unfold loadRegistry, bind, existsSync.
  rewrite bool_decide_eq_false_2; [done|]. rewrite Hnone. by intros [? ?].
Qed.

Lemma loadRegistry_fails_open_witness :
  loadRegistry permissive (on_disk stale_index)
  = (Ok (Document Registry.empty), on_disk stale_index).
Proof. apply loadRegistry_fails_open. reflexivity. Defined.

(** X3.  A registry file whose text [JSON.parse] rejects stops the merge
    before anything is made or copied: the error of [JSON.parse] comes out
    and the world is as it was.  A text that parses to a value without
    [kits], as the empty object does, stops it at the same point with the
    error of the look-up in [registry.kits]. *)
Theorem merge_stops_on_damaged_registry E tempDir repoSource w s sourceAgent :
  lookup_path tempDir [AGENT_FOLDER] = Some sourceAgent ->
  at_path (disk w) [REGISTRY_FILE] = Some (File (Text s)) ->
  (JSON_parse E s = None ->
   mergeAgentFolder E tempDir repoSource w = (Throw SyntaxError, w))
  /\ (JSON_parse E s = Some NoKits ->
      mergeAgentFolder E tempDir repoSource w = (Throw TypeError, w)).
Proof.
  intros Hagent Hreg.
  assert (is_Some (at_path (disk w) [])) as Hroot.
  { destruct (disk w) as [root|]; [simpl; eauto|done]. }
  assert (forall o, fst (loadRegistry E w) = o ->
                    loadRegistry E w = (o, w)) as Hload.
  { intros o <-. destruct (loadRegistry E w) as [o' w'] eqn:Hl.
    by apply loadRegistry_world in Hl as ->. }
  assert (fst (loadRegistry E w)
          = match JSON_parse E s with
            | Some v => Ok v
            | None => Throw SyntaxError
            end) as Hparse.
  { unfold loadRegistry, bind, existsSync, readFileSync.
    rewrite bool_decide_eq_true_2 by (rewrite Hreg; eauto). cbn [negb].
    rewrite Hreg. by destruct (JSON_parse E s). }
  split; intros Hs; rewrite Hs in Hparse; apply Hload in Hparse;
    unfold mergeAgentFolder; rewrite Hagent;
    unfold bind at 1; cbn [ret]; unfold bind at 1, existsSync at 1;
    rewrite bool_decide_eq_true_2 by done; cbn [negb when]; unfold bind at 1; cbn [ret];
    unfold bind at 1; by rewrite Hparse.
Qed.

Lemma merge_stops_on_damaged_registry_witness :
  mergeAgentFolder permissive sample_kit "github:u/a" (on_disk damaged_registry)
  = (Throw SyntaxError, on_disk damaged_registry)
  /\ mergeAgentFolder parsing sample_kit "github:u/a" (on_disk empty_object_registry)
     = (Throw TypeError, on_disk empty_object_registry).
Proof.
  split.
  - eapply (merge_stops_on_damaged_registry permissive sample_kit "github:u/a"
              (on_disk damaged_registry) "{ kits: "); reflexivity.
  - eapply (merge_stops_on_damaged_registry parsing sample_kit "github:u/a"
              (on_disk empty_object_registry) "{}"); reflexivity.
Defined.

(** X4.  A merge that throws, whatever the error, has not saved the
    registry, though it may have copied files by then, a registry file that
    the kit ships among them; a merge that returns has saved it once; and a
    merge, thrown or returned, prints nothing. *)
Theorem failed_merge_never_saves E tempDir repoSource w o w' :
  mergeAgentFolder E tempDir repoSource w = (o, w') ->
  console w' = console w
  /\ saves (calls w')
     = match o with
       | Throw _ => saves (calls w)
       | Ok _ => S (saves (calls w))
       end.
Proof.
  intros [Hout Hsaves]%merge_effect. split; [done|]. destruct o; lia.
Qed.

Lemma failed_merge_never_saves_witness :
  mergeAgentFolder no_rules shipping_kit "github:u/s" (on_disk stale_category)
  = (Throw (Errno EACCES),
     snd (mergeAgentFolder no_rules shipping_kit "github:u/s" (on_disk stale_category)))
  /\ at_path
       (disk (snd (mergeAgentFolder no_rules shipping_kit "github:u/s"
                     (on_disk stale_category))))
       [REGISTRY_FILE]
     = Some (File (Text "{}"))
  /\ console (snd (mergeAgentFolder no_rules shipping_kit "github:u/s"
                     (on_disk stale_category)))
     = console (on_disk stale_category)
  /\ saves (calls (snd (mergeAgentFolder no_rules shipping_kit "github:u/s"
                          (on_disk stale_category))))
     = saves (calls (on_disk stale_category)).
Proof.
  assert (mergeAgentFolder no_rules shipping_kit "github:u/s" (on_disk stale_category)
          = (Throw (Errno EACCES),
             snd (mergeAgentFolder no_rules shipping_kit "github:u/s"
                    (on_disk stale_category)))) as Hrun by (vm_compute; reflexivity).
  split; [exact Hrun|]. split; [vm_compute; reflexivity|].
  exact (failed_merge_never_saves no_rules shipping_kit "github:u/s"
           (on_disk stale_category) _ _ Hrun).
Defined.

(** X5.  When [.agent] in the download is a regular file, the merge throws
    the ENOTDIR of [readdirSync] after it has read the registry and the
    clock: the destination tree is untouched and the registry is not
    saved. *)
Theorem merge_agent_not_a_directory E tempDir repoSource w c root r0 :
  lookup_path tempDir [AGENT_FOLDER] = Some (File c) ->
  disk w = Some root ->
  stored w r0 ->
  exists w',
    mergeAgentFolder E tempDir repoSource w = (Throw (Errno ENOTDIR), w')
    /\ disk w' = disk w /\ calls w' = calls w /\ console w' = console w.
Proof.
  intros Hagent Hroot Hst.
  destruct (mergeAgentFolder E tempDir repoSource w) as [o w'] eqn:H. exists w'.
  apply merge_inv in H
    as [(Hnone & _)|(sourceAgent & isRootSync & o1 & w1 & Hsrc & Hpro & H)];
    [congruence|].
  destruct Hsrc as [[Hsome _]|[Hnone _]]; [|congruence].
  rewrite Hagent in Hsome. injection Hsome as <-.
  unfold bind, existsSync in Hpro.
  rewrite bool_decide_eq_true_2 in Hpro by (rewrite Hroot; simpl; eauto).
  injection Hpro as <- <-.
  rewrite (Hst E) in H.
  destruct H as (r2 & w3 & oc & s & (_ & _ & Hd & Hc & Ho & _) & Hcopy & H).
  injection Hcopy as <- <-. destruct H as [-> ->]. done.
Qed.

Lemma merge_agent_not_a_directory_witness :
  exists w',
    mergeAgentFolder permissive agent_is_file "github:u/a" (on_disk stale_index)
    = (Throw (Errno ENOTDIR), w')
    /\ disk w' = disk (on_disk stale_index)
    /\ calls w' = calls (on_disk stale_index)
    /\ console w' = console (on_disk stale_index).
Proof.
  apply (merge_agent_not_a_directory permissive agent_is_file "github:u/a"
           (on_disk stale_index) (Text "not a folder") stale_index Registry.empty).
  - reflexivity.
  - reflexivity.
  - apply stored_absent. reflexivity.
Defined.

(** X6.  A merge that returns leaves the registry entries of all the other
    kits exactly as they were. *)
Theorem merge_keeps_other_kits E tempDir repoSource w w' r0 k :
  mergeAgentFolder E tempDir repoSource w = (Ok tt, w') ->
  stored w r0 ->
  k <> kitId_of repoSource ->
  exists r', stored w' r' /\ Registry.kits r' !! k = Registry.kits r0 !! k.
Proof.
  intros (r0' & r' & M)%merge_ok Hst Hk.
  assert (r0' = r0) as -> by (eapply stored_loads; [done|apply M]).
  exists r'. split; [by eapply merged_reload|]. by apply (merged_others _ _ _ _ _ _ M).
Qed.

Lemma merge_keeps_other_kits_witness :
  exists r',
    stored after_second r'
    /\ Registry.kits r' !! "github_u_a"
       = Registry.kits
           (Registry.mk
              {["github_u_a" := Kit.mk "github:u/a" "T0" (Some "T1")
                                  ["rules/style.md"; "workflows/plan.md"]]}
              {["rules/style.md" := Owner.mk "github_u_a" "T2";
                "workflows/plan.md" := Owner.mk "github_u_a" "T3"]})
         !! "github_u_a".
Proof.
  apply (merge_keeps_other_kits permissive other_kit "github:u/b" after_first).
  - vm_compute. reflexivity.
  - vm_compute. reflexivity.
  - vm_compute. discriminate.
Defined.
(** ** What a merge never copies *)

Lemma skipped_false isRootSync relativePath name :
  skipped isRootSync relativePath name = false ->
  allowed name
  /\ (isRootSync = true -> relativePath = "" -> name ∉ exclude).
Proof.
  unfold skipped, allowed, includes.
  intros [[Hroot Hf]%orb_false_elim Hd]%orb_false_elim.
  apply bool_decide_eq_false in Hf, Hd. split; [done|].
  intros -> ->. rewrite bool_decide_eq_true_2 in Hroot by done.
  simpl in Hroot. by apply bool_decide_eq_false in Hroot.
Qed.

Lemma within_deeper isRootSync dest name c :
  allowed name ->
  (isRootSync = true -> rel_of dest = "" -> name ∉ exclude) ->
  within isRootSync (dest ++ [name]) c -> within isRootSync dest c.
Proof.
  intros Hname Hroot (Hnw & n & rest & Hpath & Hall & _). split; [done|].
  exists name, (n :: rest). rewrite Hpath, <- app_assoc. split; [done|].
  split; [by constructor|done].
Qed.

Lemma copyEntries_within E isRootSync kitId es :
  Forall (fun e => copy_within E isRootSync kitId (snd e)) es ->
  forall dest s o s',
    copyEntries E isRootSync kitId es dest (rel_of dest) s = (o, s') ->
    exists new, calls (wld s') = new ++ calls (wld s)
                /\ Forall (within isRootSync dest) new.
Proof.
  induction 1 as [|[name entry] rest Hentry _ IH]; intros dest s o s'.
  - intros [= <- <-]. by exists [].
  - cbn [copyEntries]. destruct (skipped _ _ _) eqn:Hskip; [by apply IH|].
    apply skipped_false in Hskip as [Hname Hroot].
    assert (forall c, call_path c = dest ++ [name] -> (forall p, c <> WriteFile p) ->
                      within isRootSync dest c) as Hhere.
    { intros c Hc Hnw. split; [done|]. exists name, []. split; [done|].
      split; [|done]. constructor; [done|constructor]. }
    intros Hrun.
    assert (forall ob sb,
      match entry with
      | Dir _ =>
          do ex <- liftW (existsSync (dest ++ [name]));
          run when (negb ex) (liftW (mkdirSync E (dest ++ [name])));
          copyRecursive E isRootSync kitId entry (dest ++ [name])
                        (path_join (rel_of dest) name)
      | File c =>
          try_ignore
            (run liftW (copyFileSync E c (dest ++ [name]));
             track E kitId (path_join (rel_of dest) name))
      end s = (ob, sb) ->
      exists new, calls (wld sb) = new ++ calls (wld s)
                  /\ Forall (within isRootSync dest) new) as Hbody.
    { intros ob sb. destruct entry as [c|sub].
      - intros Hb.
        destruct (copy_file_step E kitId c (dest ++ [name])
                    (path_join (rel_of dest) name) s) as (s2 & Hstep & Hcase).
        rewrite Hstep in Hb. injection Hb as _ <-.
        destruct Hcase as [(e & _ & ->)|(d & _ & ->)]; [by exists []|].
        exists [CopyFile (dest ++ [name])]. split; [done|].
        apply List.Forall_cons; [by apply Hhere|apply List.Forall_nil].
      - intros Hb.
        apply bind_inv in Hb as [(ex & s2 & Hex & Hb)|(e & Hex & _)].
        2:{ unfold liftW, existsSync in Hex. simpl in Hex. done. }
        unfold liftW, existsSync in Hex. simpl in Hex. injection Hex as <- <-.
        assert (forall om sm,
          when (negb (bool_decide (is_Some (at_path (disk (wld s)) (dest ++ [name])))))
               (liftW (mkdirSync E (dest ++ [name])))
               {| registry := registry s; wld := wld s |} = (om, sm) ->
          exists new, calls (wld sm) = new ++ calls (wld s)
                      /\ Forall (within isRootSync dest) new) as Hmk.
        { intros om sm. destruct (bool_decide _); cbn [negb when ret].
          - intros [= _ <-]. by exists [].
          - unfold liftW. cbn [wld registry].
            destruct (mkdirSync E (dest ++ [name]) (wld s)) as [o1 w1] eqn:Hm.
            apply mkdirSync_inv in Hm as [(d & -> & ->)|(e & -> & ->)];
              intros [= _ <-].
            + exists [Mkdir (dest ++ [name])]. split; [done|].
              apply List.Forall_cons; [by apply Hhere|apply List.Forall_nil].
            + by exists []. }
        apply bind_inv in Hb as [([] & s3 & Hm & Hb)|(e & Hm & _)].
        + apply Hmk in Hm as (new1 & Hc1 & Hw1).
          rewrite <- rel_of_snoc in Hb.
          apply Hentry in Hb as (new2 & Hc2 & Hw2).
          exists (new2 ++ new1). split; [by rewrite Hc2, Hc1, app_assoc|].
          apply Forall_app. split; [|done].
          eapply Forall_impl; [exact Hw2|]. intros c. by apply within_deeper.
        + by apply Hmk in Hm. }
    apply bind_inv in Hrun as [([] & s1 & Hb & Hrest)|(e & Hb & _)].
    + apply Hbody in Hb as (new1 & Hc1 & Hw1).
      apply IH in Hrest as (new2 & Hc2 & Hw2).
      exists (new2 ++ new1). split; [by rewrite Hc2, Hc1, app_assoc|].
      by apply Forall_app.
    + by apply Hbody in Hb.
Qed.

Lemma copyRecursive_within E isRootSync kitId src :
  copy_within E isRootSync kitId src.
Proof.
  induction src as [c|es IH] using node_induction; intros dest s o s'.
  - simpl. intros [= <- <-]. by exists [].
  - rewrite copyRecursive_dir. by apply copyEntries_within.
Qed.

Lemma prologue_calls E w o w1 :
  (do ex <- existsSync []; when (negb ex) (mkdirSync E [])) w = (o, w1) ->
  calls w1 = calls w \/ calls w1 = Mkdir [] :: calls w.
Proof.
  unfold bind, existsSync. cbn [when negb ret].
  destruct (bool_decide _); cbn [when negb ret].
  - intros [= <- <-]. by left.
  - intros [(d & _ & ->)|(e & _ & ->)]%mkdirSync_inv; [by right|by left].
Qed.

(** X7.  Whatever a merge creates or copies lies along names that the global
    exclusions let through, at every depth ([docs], [bin], [lib], [packages]
    and the five meta documents never appear in a path); and when the merge
    falls back to the root of the download, the first name of the path is
    none of the root exclusions either.  The only other calls are the
    creation of the destination directory and the write of the registry
    file. *)
Theorem merge_never_copies_excluded E tempDir repoSource w o w' :
  mergeAgentFolder E tempDir repoSource w = (o, w') ->
  exists new,
    calls w' = new ++ calls w
    /\ forall c, c ∈ new ->
         c = Mkdir [] \/ c = WriteFile [REGISTRY_FILE]
         \/ ((forall p, c <> WriteFile p)
             /\ exists name rest,
                  call_path c = name :: rest
                  /\ Forall allowed (name :: rest)
                  /\ (lookup_path tempDir [AGENT_FOLDER] = None -> name ∉ exclude)).
Proof.
  intros H.
  assert (forall w1 cs,
    calls w1 = calls w \/ calls w1 = Mkdir [] :: calls w -> cs = calls w1 ->
    exists new : list syscall, cs = new ++ calls w
      /\ forall c, c ∈ new ->
           c = Mkdir [] \/ c = WriteFile [REGISTRY_FILE]
           \/ ((forall p, c <> WriteFile p)
               /\ exists name rest,
                    call_path c = name :: rest
                    /\ Forall allowed (name :: rest)
                    /\ (lookup_path tempDir [AGENT_FOLDER] = None -> name ∉ exclude)))
    as Hpre.
  { intros w1 cs [Hc|Hc] ->.
    - exists []. split; [done|]. intros c Hin. by apply elem_of_nil in Hin.
    - exists [Mkdir []]. split; [done|].
      intros c ->%list_elem_of_singleton. by left. }
  apply merge_inv in H
    as [(_ & _ & ->)|(sourceAgent & isRootSync & o1 & w1 & Hsrc & Hpro & H)].
  { apply (Hpre w); auto. }
  apply prologue_calls in Hpro.
  destruct o1 as [[]|e]; [|destruct H as [_ ->]; by eapply Hpre].
  destruct (fst (loadRegistry E w1)) as [[r0|]|e];
    [|destruct H as [_ ->]; by eapply Hpre..].
  destruct H as (r2 & w3 & oc & s & (_ & _ & _ & Hc2 & _) & Hcopy & H).
  change "" with (rel_of []) in Hcopy.
  apply copyRecursive_within in Hcopy as (new & Hc & Hw). simpl in Hc.
  assert (isRootSync = true <-> lookup_path tempDir [AGENT_FOLDER] = None) as Hroot.
  { destruct Hsrc as [[Hsome ->]|(Hnone & _ & ->)]; [|done].
    rewrite Hsome. split; discriminate. }
  assert (exists tail final,
            calls w' = final ++ new ++ tail ++ calls w
            /\ (tail = [] \/ tail = [Mkdir []])
            /\ (final = [] \/ final = [WriteFile [REGISTRY_FILE]]))
    as (tail & final & Hcalls & Htail & Hfinal).
  { assert (exists tail, calls w1 = tail ++ calls w /\ (tail = [] \/ tail = [Mkdir []]))
      as (tail & Ht & Htail).
    { destruct Hpro as [->| ->]; [exists []|exists [Mkdir []]]; eauto. }
    exists tail. destruct oc as [[]|e].
    - unfold saveRegistry, writeFileSync in H.
      apply put_file_inv in H as [(d & _ & ->)|(e & _ & ->)].
      + exists [WriteFile [REGISTRY_FILE]]. simpl. rewrite Hc, Hc2, Ht. eauto.
      + exists []. simpl. rewrite Hc, Hc2, Ht. eauto.
    - destruct H as [_ ->]. exists []. simpl. rewrite Hc, Hc2, Ht. eauto. }
  exists (final ++ new ++ tail). split; [by rewrite Hcalls, <- !app_assoc|].
  intros c [Hin|[Hin|Hin]%elem_of_app]%elem_of_app.
  - destruct Hfinal as [->| ->]; [by apply elem_of_nil in Hin|].
    apply list_elem_of_singleton in Hin. auto.
  - right. right. rewrite Forall_forall in Hw.
    destruct (Hw c Hin) as (Hnw & name & rest & Hpath & Hall & Hr).
    split; [done|]. exists name, rest. split; [done|]. split; [done|].
    intros Hnoagent. apply Hr; [by apply Hroot|done].
  - destruct Htail as [->| ->]; [by apply elem_of_nil in Hin|].
    apply list_elem_of_singleton in Hin. auto.
Qed.

Lemma merge_never_copies_excluded_witness :
  exists new,
    calls (snd (mergeAgentFolder permissive root_kit "github:u/root" fresh))
    = new ++ calls fresh
    /\ forall c, c ∈ new ->
         c = Mkdir [] \/ c = WriteFile [REGISTRY_FILE]
         \/ ((forall p, c <> WriteFile p)
             /\ exists name rest,
                  call_path c = name :: rest
                  /\ Forall allowed (name :: rest)
                  /\ (lookup_path root_kit [AGENT_FOLDER] = None -> name ∉ exclude)).
Proof.
  apply (merge_never_copies_excluded permissive root_kit "github:u/root" fresh (Ok tt)).
  vm_compute. reflexivity.
Defined.

(** ** Rule enforcer *)

Lemma enforce_quiet E asset w o w' :
  enforceGoldenRules E asset true w = (o, w') -> console w' = console w.
Proof.
  unfold enforceGoldenRules, try_catch.
  destruct ((do ex <- existsSync ["rules"]; _) w) as [ob wb] eqn:Hbody.
  assert (console wb = console w) as Hb.
  { unfold bind at 1, existsSync in Hbody. cbn [when negb ret] in Hbody.
    unfold bind at 1 in Hbody.
    destruct (when _ _ w) as [[[]|e] w1] eqn:Hmk.
    - assert (console w1 = console w) as Ho1.
      { revert Hmk. destruct (bool_decide _); cbn [when negb ret].
        - by intros [= <-].
        - intros [(d & _ & ->)|(e & [=] & _)]%mkdirSync_inv. done. }
      destruct asset as [c|]; [|by injection Hbody as _ <-].
      unfold bind at 1 in Hbody.
      destruct (copyFileSync E c _ w1) as [oc w2] eqn:Hcopy.
      apply put_file_inv in Hcopy as [(d & -> & ->)|(e & -> & ->)].
      + unfold log, when, ret in Hbody. simpl in Hbody. by injection Hbody as _ <-.
      + by injection Hbody as _ <-.
    - injection Hbody as _ <-.
      revert Hmk. destruct (bool_decide _); cbn [when negb ret]; [done|].
      intros [(d & [=] & _)|(e' & _ & ->)]%mkdirSync_inv. done. }
  destruct ob as [a|e].
  - by intros [= _ <-].
  - unfold log, when, ret. simpl. by intros [= _ <-].
Qed.

(** X8.  Enforcing the rules never throws: what fails inside is caught.  It
    never writes the registry file, and a quiet run prints nothing. *)
Theorem enforce_never_throws E asset quiet w o w' :
  enforceGoldenRules E asset quiet w = (o, w') ->
  o = Ok tt
  /\ saves (calls w') = saves (calls w)
  /\ (quiet = true -> console w' = console w).
Proof.
  intros H. pose proof (enforce_effect _ _ _ _ _ _ H) as (-> & Hs & _).
  split; [done|]. split; [done|]. intros ->. by eapply enforce_quiet.
Qed.

Lemma enforce_never_throws_witness :
  fst (enforceGoldenRules permissive (Some (Text "rules")) true (on_disk (File (Text "x"))))
  = Ok tt.
Proof.
  destruct (enforceGoldenRules permissive (Some (Text "rules")) true
              (on_disk (File (Text "x")))) as [o w'] eqn:Hrun.
  apply enforce_never_throws in Hrun as (-> & _). reflexivity.
Defined.

(** X9.  When the internal asset exists, the target is a directory whose
    [rules] entry is missing or is a directory, no directory sits at
    [rules/GEMINI.md] and the environment refuses neither call, then after
    the enforcement [rules/GEMINI.md] holds the asset, whatever it held
    before. *)
Theorem enforce_installs_asset E c quiet w es :
  disk w = Some (Dir es) ->
  match find_entry "rules" es with
  | None => True
  | Some (Dir rs) => forall ds, find_entry "GEMINI.md" rs <> Some (Dir ds)
  | Some (File _) => False
  end ->
  denied E (Mkdir ["rules"]) = false ->
  denied E (CopyFile ["rules"; "GEMINI.md"]) = false ->
  exists w',
    enforceGoldenRules E (Some c) quiet w = (Ok tt, w')
    /\ at_path (disk w') ["rules"; "GEMINI.md"] = Some (File c).
Proof.
  intros Hdisk Hrules Hmk Hcp.
  unfold enforceGoldenRules, try_catch, bind, existsSync.
  rewrite Hdisk. cbn [at_path lookup_path].
  destruct (find_entry "rules" es) as [[c0|rs]|] eqn:Hfind; [done| |].
  - rewrite bool_decide_eq_true_2 by eauto. cbn [negb when ret].
    unfold copyFileSync, put_file. rewrite Hcp, Hdisk.
    cbn [write_file]. rewrite Hfind.
    destruct (find_entry "GEMINI.md" rs) as [[c1|ds]|] eqn:Hg;
      [| by destruct (Hrules ds) |].
    + cbn [write_file]. destruct quiet; (eexists; split; [reflexivity|]);
        cbn; by rewrite !find_set_entry.
    + destruct quiet; (eexists; split; [reflexivity|]);
        cbn; by rewrite !find_set_entry.
  - rewrite bool_decide_eq_false_2 by (by intros [? ?]). cbn [negb when].
    unfold mkdirSync. rewrite Hmk, Hdisk. cbn [mkdirp]. rewrite Hfind.
    cbn [mkdirp]. unfold copyFileSync, put_file. rewrite Hcp. cbn [commit disk].
    cbn [write_file]. rewrite find_set_entry. cbn [find_entry write_file].
    destruct quiet; (eexists; split; [reflexivity|]);
      cbn; by rewrite !find_set_entry.
Qed.

Lemma enforce_installs_asset_witness :
  exists w',
    enforceGoldenRules permissive (Some (Text "the one rule")) true (on_disk kit_rules)
    = (Ok tt, w')
    /\ at_path (disk w') ["rules"; "GEMINI.md"] = Some (File (Text "the one rule")).
Proof.
  apply (enforce_installs_asset permissive (Text "the one rule") true (on_disk kit_rules)
           [("rules", Dir [("GEMINI.md", File (Text "from a kit"))]);
            ("skills", Dir [("alpha", Dir [("SKILL.md", File (Text "# alpha"))])])]).
  - reflexivity.
  - vm_compute. intros ds Heq. discriminate Heq.
  - reflexivity.
  - reflexivity.
Defined.

(** ** More on the skill indexer *)

Lemma lookup_write_file_other root x c d y p :
  write_file root [x] c = inr d -> y <> x ->
  lookup_path d (y :: p) = lookup_path root (y :: p).
Proof.
  intros Hw Hy. destruct root as [c0|es]; [done|]. cbn [write_file] in Hw.
  assert (d = Dir (set_entry x (File c) es)) as ->.
  { destruct (find_entry x es) as [[c1|es1]|]; cbn [write_file] in Hw;
      congruence. }
  cbn [lookup_path]. by rewrite find_set_entry_ne.
Qed.

(** X10.  Index generation touches the index file and nothing else: every
    other path of the target directory (the skills, the rules, the registry
    file) is afterwards as it was. *)
Theorem index_touches_index_file_only E quiet w o w' name p :
  generateSkillsIndex E quiet w = (o, w') ->
  name <> INDEX_FILE ->
  at_path (disk w') (name :: p) = at_path (disk w) (name :: p).
Proof.
  intros H Hname. revert H. unfold generateSkillsIndex, bind, existsSync.
  assert (forall m w0 o0 w1, log m quiet w0 = (o0, w1) -> disk w1 = disk w0) as Hlog.
  { intros m w0 o0 w1. unfold log, when, print, ret.
    destruct quiet; simpl; by intros [= _ <-]. }
  destruct (bool_decide _); cbn [negb].
  - destruct (at_path (disk w) ["skills"]) as [sk|]; [|by intros [= _ <-]].
    destruct (processDir sk "skills" "" (mkScan [] None)) as [[[]|e] sc];
      [|by intros [= _ <-]].
    unfold writeFileSync, put_file. destruct (denied E _); [by intros [= _ <-]|].
    destruct (disk w) as [root|] eqn:Hdisk; [|intros [= _ <-]; by rewrite Hdisk].
    destruct (write_file root [INDEX_FILE] (IndexJson (skills sc))) as [e|d] eqn:Hw;
      [intros [= _ <-]; by rewrite Hdisk|].
    intros ->%Hlog. simpl. by eapply lookup_write_file_other.
  - by intros ->%Hlog.
Qed.

Lemma index_touches_index_file_only_witness :
  at_path (disk (snd (generateSkillsIndex permissive true (on_disk stale_category))))
          ["skills"; "tools"]
  = at_path (disk (on_disk stale_category)) ["skills"; "tools"]
  /\ at_path (disk (snd (generateSkillsIndex permissive true (on_disk kit_rules))))
             ["rules"; "GEMINI.md"]
     = at_path (disk (on_disk kit_rules)) ["rules"; "GEMINI.md"].
Proof.
  split.
  - apply (index_touches_index_file_only permissive true (on_disk stale_category)
             (Ok tt)).
    + vm_compute. reflexivity.
    + discriminate.
  - apply (index_touches_index_file_only permissive true (on_disk kit_rules)
             (Throw ReferenceError)).
    + vm_compute. reflexivity.
    + discriminate.
Defined.

(** X27.  The index that is written is empty: a scan that meets a skill folder
    raises, and one that meets none has nothing to enter.  Whenever index
    generation returns from a directory that has a [skills] folder, the
    index file holds the empty array. *)
Theorem index_is_never_filled E quiet w w' :
  generateSkillsIndex E quiet w = (Ok tt, w') ->
  is_Some (at_path (disk w) ["skills"]) ->
  at_path (disk w') [INDEX_FILE] = Some (File (IndexJson [])).
Proof.
  intros H [sk Hsk]. revert H. unfold generateSkillsIndex, bind, existsSync.
  assert (forall m w0 o0 w1, log m quiet w0 = (o0, w1) -> disk w1 = disk w0) as Hlog.
  { intros m w0 o0 w1. unfold log, when, print, ret.
    destruct quiet; simpl; by intros [= _ <-]. }
  rewrite bool_decide_eq_true_2 by (rewrite Hsk; eauto). cbn [negb]. rewrite Hsk.
  destruct (processDir sk "skills" "" (mkScan [] None)) as [[[]|e] sc] eqn:Hscan;
    [|done].
  apply processDir_skills in Hscan. cbn [skills] in Hscan. rewrite Hscan.
  unfold writeFileSync, put_file. destruct (denied E _); [done|].
  destruct (disk w) as [root|] eqn:Hdisk; [|done].
  destruct (write_file root [INDEX_FILE] (IndexJson [])) as [e|d] eqn:Hw; [done|].
  intros ->%Hlog. simpl. by eapply at_path_write_same.
Qed.

Lemma index_is_never_filled_witness :
  at_path (disk (snd (generateSkillsIndex permissive true (on_disk category_only))))
          [INDEX_FILE]
  = Some (File (IndexJson [])).
Proof.
  apply (index_is_never_filled permissive true (on_disk category_only)).
  - vm_compute. reflexivity.
  - vm_compute. eauto.
Defined.

(** X12.  A marker file with Windows line ends ([---] followed by CR LF) has
    no block for the pattern of line 187: lines 184 to 194 leave [name] at
    the folder name and [description] empty, whatever the file declares. *)
Theorem crlf_marker_has_no_frontmatter folderName rest :
  fmMatch ("---" +:+ String CR (String LF rest)) = None
  /\ declared_name folderName (Text ("---" +:+ String CR (String LF rest)))
     = folderName
  /\ declared_description (Text ("---" +:+ String CR (String LF rest))) = "".
Proof. done. Qed.

(** X13.  A field line that is left empty takes the text of the next line:
    the white space that the pattern skips after the key includes the line
    break. *)
Theorem empty_value_takes_next_line key pad v rest :
  blanks pad -> plain_value v ->
  rest = "" \/ (exists t, rest = String LF t) ->
  fieldMatch key (key +:+ pad +:+ String LF (v +:+ rest)) = Some v.
Proof.
  intros Hpad Hv Hrest. destruct (plain_value_head v Hv) as [Hdrop _].
  destruct Hv as (Hne & _ & Hline).
  unfold fieldMatch. rewrite split_first_here. f_equal.
  rewrite drop_spaces_blanks by done.
  change (drop_spaces (String LF (v +:+ rest))) with (drop_spaces (v +:+ rest)).
  rewrite drop_spaces_app, take_line_app by done.
  assert (take_line rest = "") as ->.
  { destruct Hrest as [->|[t ->]]; done. }
  apply append_nil_r.
Qed.

Lemma empty_value_takes_next_line_witness :
  fieldMatch "name:" ("name:" +:+ " " +:+ String LF ("description: Bar" +:+ ""))
  = Some "description: Bar".
Proof.
  apply (empty_value_takes_next_line "name:" " " "description: Bar" "").
  - reflexivity.
  - repeat split; try reflexivity. discriminate.
  - by left.
Defined.

(** ** Identifiers *)

Lemma smap_length f s : String.length (smap f s) = String.length s.
Proof. induction s as [|c s IH]; simpl; [done|]. by rewrite IH. Qed.

(** X15.  A kit identifier is as long as its source, is made of letters,
    digits and underscores only, and is its own identifier. *)
Theorem kitId_of_shape s :
  String.length (kitId_of s) = String.length s
  /\ sall is_id_char (kitId_of s) = true
  /\ kitId_of (kitId_of s) = kitId_of s.
Proof.
  unfold kitId_of. split; [apply smap_length|].
  split; induction s as [|c s IH]; cbn [smap sall]; try done.
  - rewrite IH, andb_true_r. unfold is_id_char.
    destruct (is_alnum c) eqn:Hc; [by rewrite Hc|done].
  - rewrite IH. f_equal. destruct (is_alnum c) eqn:Hc; [by rewrite Hc|done].
Qed.

(** X16.  Two sources get the same kit identifier exactly when they have the
    same length and differ only where neither has a letter or a digit. *)
Theorem kit_identifiers_collide_iff s1 s2 :
  kitId_of s1 = kitId_of s2 <-> differ_only_nonalnum s1 s2.
Proof. symmetry. apply kitId_of_alias. Qed.

(** ** The sync command *)

Lemma sync_body_reported E giget source w0 o1 w1 :
  (do _stamp <- now E;
   do tmpDir <- match giget source with
                | Some d => ret d
                | None => throw FetchFailed
                end;
   run print (Merging source);
   run mergeAgentFolder E tmpDir source;
   print (Synced source)) w0 = (o1, w1) ->
  reported (console w1)
  = reported (console w0) + match o1 with Ok _ => 1 | Throw _ => 0 end.
Proof.
  intros H.
  apply bind_inv in H as [(t & wa & Hnow & H)|(e & Hnow & ->)]; [|done].
  unfold now in Hnow. injection Hnow as _ <-.
  apply bind_inv in H as [(tmpDir & wb & Hget & H)|(e & Hget & ->)].
  2:{ destruct (giget source); [done|]. injection Hget as _ <-. simpl. lia. }
  assert (wb = mkWorld (disk w0) (S (ticks w0)) (calls w0) (console w0)
                       (proto_lastUpdated w0)) as ->.
  { destruct (giget source); [|done]. by injection Hget. }
  clear Hget.
  apply bind_inv in H as [([] & wc & Hpr & H)|(e & Hpr & ->)]; [|done].
  unfold print in Hpr. injection Hpr as <-.
  cbn [disk ticks calls console proto_lastUpdated] in H.
  apply bind_inv in H as [([] & wm & Hm & H)|(e & Hm & ->)];
    apply merge_effect in Hm as [Hout _]; cbn [console] in Hout.
  - unfold print in H. injection H as <- <-. cbn [console reported].
    rewrite Hout. cbn [reported]. lia.
  - rewrite Hout. cbn [reported]. lia.
Qed.

(** X18.  The loop over the sources never throws: a source that cannot be
    fetched or merged is reported and the loop goes on.  Every source gets
    exactly one report, success or failure. *)
Theorem every_source_is_reported E giget kitsToSync w o w' :
  syncKits E giget kitsToSync w = (o, w') ->
  o = Ok tt
  /\ reported (console w') = reported (console w) + length kitsToSync.
Proof.
  revert w. induction kitsToSync as [|source rest IH]; intros w.
  - intros [= <- <-]. split; [done|]. simpl. lia.
  - cbn [syncKits]. intros H.
    apply bind_inv in H as [([] & wa & Hpr & H)|(e & Hpr & ->)]; [|done].
    unfold print in Hpr. injection Hpr as <-.
    apply bind_inv in H as [([] & wb & Htry & H)|(e & Htry & ->)].
    + apply IH in H as [-> H]. split; [done|]. rewrite H. cbn [length].
      unfold try_catch in Htry.
      destruct ((do _stamp <- now E; _) _) as [[[]|e] w1] eqn:Hbody;
        apply sync_body_reported in Hbody; cbn [console reported] in Hbody.
      * injection Htry as <-. lia.
      * unfold print in Htry. injection Htry as <-. cbn [console reported]. lia.
    + unfold try_catch in Htry.
      destruct ((do _stamp <- now E; _) _) as [[[]|e1] w1]; [done|].
      unfold print in Htry. done.
Qed.

Lemma every_source_is_reported_witness :
  fst (syncKits permissive one_kit ["github:u/missing"; "github:u/a"] fresh) = Ok tt
  /\ reported (console (snd (syncKits permissive one_kit
                               ["github:u/missing"; "github:u/a"] fresh)))
     = reported (console fresh) + length ["github:u/missing"; "github:u/a"].
Proof.
  destruct (syncKits permissive one_kit ["github:u/missing"; "github:u/a"] fresh)
    as [o w'] eqn:Hrun.
  apply every_source_is_reported in Hrun as [-> Hrep]. split; [reflexivity|exact Hrep].
Defined.

(** X19.  Without a source and without [--all] the sync command prints the
    header and the error, exits with status 1 and touches nothing. *)
Theorem sync_without_source_exits E giget asset repoSource localMode w :
  repoSource = None \/ repoSource = Some "" ->
  syncCommand E giget asset repoSource false localMode w
  = (Throw (Exit 1),
     mkWorld (disk w) (ticks w) (calls w) (MissingSource :: Header :: console w)
             (proto_lastUpdated w)).
Proof. intros [->| ->]; reflexivity. Qed.

Lemma sync_without_source_exits_witness :
  syncCommand permissive one_kit None None false true fresh
  = (Throw (Exit 1),
     mkWorld (disk fresh) (ticks fresh) (calls fresh)
             (MissingSource :: Header :: console fresh) (proto_lastUpdated fresh)).
Proof. apply sync_without_source_exits. by left. Defined.

(** X20.  Once it has its list of sources, the sync command can only throw
    from the generation of the index, which it does not guard: fetch and
    merge failures are reported and rule enforcement catches its own. *)
Theorem sync_throws_only_from_index E giget asset repoSource all localMode w e w' :
  syncCommand E giget asset repoSource all localMode w = (Throw e, w') ->
  e = Exit 1 \/ exists w0, generateSkillsIndex E true w0 = (Throw e, w').
Proof.
  unfold syncCommand. intros H.
  apply bind_inv in H as [([] & w1 & _ & H)|(e0 & Hp & _)]; [|done].
  apply bind_inv in H as [(kitsToSync & w2 & _ & H)|(e0 & Hk & He)].
  2:{ left. injection He as ->.
      destruct repoSource as [[|c s]|]; try done; (destruct all; [done|]);
        (apply bind_inv in Hk as [([] & wx & _ & Hk)|(e' & Hp & _)];
         [by injection Hk|done]). }
  apply bind_inv in H as [([] & w3 & _ & H)|(e0 & Hsync & _)].
  2:{ by apply syncKits_effect in Hsync as [[=] _]. }
  apply bind_inv in H as [([] & w4 & _ & H)|(e0 & Hp & _)]; [|done].
  apply bind_inv in H as [([] & w5 & _ & H)|(e0 & Henf & _)].
  2:{ by apply enforce_effect in Henf as ([=] & _). }
  apply bind_inv in H as [([] & w6 & _ & H)|(e0 & Hp & _)]; [|done].
  apply bind_inv in H as [([] & w7 & _ & H)|(e0 & Hp & _)]; [|done].
  apply bind_inv in H as [([] & w8 & _ & H)|(e0 & Hidx & He)].
  2:{ injection He as ->. right. eauto. }
  apply bind_inv in H as [([] & w9 & _ & H)|(e0 & Hp & _)]; [|done].
  done.
Qed.

Lemma sync_throws_only_from_index_witness :
  Errno ENOENT = Exit 1
  \/ exists w0,
       generateSkillsIndex permissive true w0
       = (Throw (Errno ENOENT),
          snd (syncCommand permissive (fun _ => None) None (Some "github:u/a") false
                           false (on_disk lowercase_marker))).
Proof.
  apply (sync_throws_only_from_index permissive (fun _ => None) None
           (Some "github:u/a") false false (on_disk lowercase_marker)).
  vm_compute. reflexivity.
Defined.

(** ** Merging a kit again *)

(** X21.  When a kit is merged again and every path it copies is listed for
    it already, its list of files comes out exactly as it was, in the same
    order, and so do its source and its time of installation. *)
Theorem remerge_keeps_list E tempDir repoSource w w' r0 K :
  mergeAgentFolder E tempDir repoSource w = (Ok tt, w') ->
  stored w r0 ->
  Registry.kits r0 !! kitId_of repoSource = Some K ->
  NoDup (Kit.files K) ->
  (forall P, copied_by w w' P -> P ∈ Kit.files K) ->
  exists r' K',
    stored w' r'
    /\ Registry.kits r' !! kitId_of repoSource = Some K'
    /\ Kit.files K' = Kit.files K
    /\ Kit.source K' = Kit.source K
    /\ Kit.installedAt K' = Kit.installedAt K.
Proof.
  intros (r0' & r' & M)%merge_ok Hst HK Hnd Hlisted.
  assert (r0' = r0) as -> by (eapply stored_loads; [done|apply M]).
  destruct (merged_kit _ _ _ _ _ _ M) as (K' & HK' & Hcase & [extra Hext] & Hnd' & Hin);
    [left; rewrite HK; eauto|].
  unfold kit_files in Hext, Hnd', Hin. rewrite HK in Hcase, Hext, Hnd', Hin.
  destruct Hcase as (Hs & Hi & _).
  exists r', K'. split; [by eapply merged_reload|]. split; [done|].
  split; [|done].
  destruct extra as [|P extra]; [by rewrite Hext, app_nil_r|].
  specialize (Hnd' Hnd). rewrite Hext in Hnd', Hin.
  apply NoDup_app in Hnd' as (_ & Hdisj & _).
  assert (P ∈ Kit.files K) as HP.
  { destruct (proj1 (Hin P)) as [?|?]; [|done|by apply Hlisted].
    apply elem_of_app. right. by left. }
  destruct (Hdisj P HP). by left.
Qed.

Lemma remerge_keeps_list_witness :
  exists r' K',
    stored after_again r'
    /\ Registry.kits r' !! kitId_of "github:u/a" = Some K'
    /\ Kit.files K'
       = Kit.files (Kit.mk "github:u/a" "T0" (Some "T1")
                           ["rules/style.md"; "workflows/plan.md"])
    /\ Kit.source K'
       = Kit.source (Kit.mk "github:u/a" "T0" (Some "T1")
                            ["rules/style.md"; "workflows/plan.md"])
    /\ Kit.installedAt K'
       = Kit.installedAt (Kit.mk "github:u/a" "T0" (Some "T1")
                                 ["rules/style.md"; "workflows/plan.md"]).
Proof.
  assert (exists r0, stored after_first r0
                     /\ Registry.kits r0 !! kitId_of "github:u/a"
                        = Some (Kit.mk "github:u/a" "T0" (Some "T1")
                                       ["rules/style.md"; "workflows/plan.md"]))
    as (r0 & Hst & HK).
  { eexists. split; vm_compute; reflexivity. }
  apply (remerge_keeps_list permissive sample_kit "github:u/a" after_first after_again
           r0 _ ).
  - vm_compute. reflexivity.
  - exact Hst.
  - exact HK.
  - cbn [Kit.files]. apply NoDup_cons. split.
    + intros Hin%list_elem_of_singleton. discriminate Hin.
    + apply NoDup_singleton.
  - intros P Hcopied.
    assert (calls after_again
            = [WriteFile [REGISTRY_FILE]; CopyFile ["workflows"; "plan.md"];
               CopyFile ["rules"; "style.md"]] ++ calls after_first) as Hcalls
      by (vm_compute; reflexivity).
    apply (copied_by_iff _ _ _ Hcalls) in Hcopied. vm_compute in Hcopied.
    cbn [Kit.files].
    apply elem_of_cons in Hcopied as [->|Hcopied].
    + in_list.
    + apply elem_of_cons in Hcopied as [->|Hcopied].
      * in_list.
      * apply elem_of_nil in Hcopied. destruct Hcopied.
Defined.
